(** * DWebNS web client: record reconstruction and update protocol

    A shallow embedding of the record-management code of the ns-web client
    (the [RecordsPage] component, the key snippets of [web3.ts] and
    [HomePage.tsx], and the legacy [App-old.tsx]), together with the
    pieces of the host platform it calls: ethers' [toUtf8Bytes], the
    platform's [TextDecoder], ethers' [AbiCoder] for the [address] type and
    the JavaScript [Map].

    Conventions.
    - A JavaScript string is the list of its UTF-16 code units, each a [Z]
      in [0, 65536).
    - A byte array ([Uint8Array]) is a list of [Z] in [0, 256).
    - A library call that may throw returns an [option], [None] being
      the exception; the handlers of a page run in a small state and
      exception monad ([Handler]) with [try]/[catch]/[finally]. *)

From Stdlib Require Import String Ascii DecimalString DecimalN.
From Stdlib Require Import ZArith List Lia Bool.
Import ListNotations.
Open Scope Z_scope.

(** ** JavaScript strings *)

Definition jsstring := list Z.
Definition bytes := list Z.

Definition is_byte (b : Z) : Prop := 0 <= b < 256.

(** An ASCII literal as a JavaScript string. *)
Definition js (s : string) : jsstring :=
  map (fun a => Z.of_N (N_of_ascii a)) (list_ascii_of_string s).

(** [===] on two strings. *)
Fixpoint str_eqb (a b : jsstring) : bool :=
  match a, b with
  | [], [] => true
  | x :: a', y :: b' => (x =? y) && str_eqb a' b'
  | _, _ => false
  end.

(** [!s] for a string [s]: only the empty string is falsy. *)
Definition falsy (s : jsstring) : bool :=
  match s with [] => true | _ => false end.

(** ECMAScript LineTerminator: LF, CR, LS, PS. *)
Definition isLineTerminator (c : Z) : bool :=
  (c =? 0x0A) || (c =? 0x0D) || (c =? 0x2028) || (c =? 0x2029).

(** ECMAScript WhiteSpace: TAB, VT, FF, ZWNBSP and the Unicode
    space separators (category Zs). *)
Definition isWhiteSpace (c : Z) : bool :=
  (c =? 0x09) || (c =? 0x0B) || (c =? 0x0C) || (c =? 0xFEFF) ||
  (c =? 0x20) || (c =? 0xA0) || (c =? 0x1680) ||
  ((0x2000 <=? c) && (c <=? 0x200A)) ||
  (c =? 0x202F) || (c =? 0x205F) || (c =? 0x3000).

(** What [String.prototype.trim] and [parseInt] strip. *)
Definition isStrWhiteSpaceChar (c : Z) : bool :=
  isWhiteSpace c || isLineTerminator c.

Fixpoint trimStart (s : jsstring) : jsstring :=
  match s with
  | c :: s' => if isStrWhiteSpaceChar c then trimStart s' else s
  | [] => []
  end.

(** [s.trim()]. *)
Definition trim (s : jsstring) : jsstring :=
  rev (trimStart (rev (trimStart s))).

(** [s.replace(/\0/g, '')]: every NUL code unit is removed. *)
Definition removeNul (s : jsstring) : jsstring :=
  filter (fun c => negb (c =? 0)) s.

(** [String(n)] for a non-negative integer below 10^21: its decimal
    digits. *)
Definition numberToString (n : Z) : jsstring :=
  js (NilZero.string_of_uint (N.to_uint (Z.to_N n))).

Definition isDecimalDigit (c : Z) : Prop := 48 <= c <= 57.

(** Surrogates and well-formed strings ([String.prototype.isWellFormed]). *)
Definition isCodeUnit (c : Z) : bool := (0 <=? c) && (c <? 65536).

Definition isHighSurrogate (c : Z) : bool := (0xD800 <=? c) && (c <=? 0xDBFF).

Definition isLowSurrogate (c : Z) : bool := (0xDC00 <=? c) && (c <=? 0xDFFF).

Fixpoint isWellFormed (s : jsstring) : bool :=
  match s with
  | [] => true
  | c :: rest =>
      if isHighSurrogate c then
        match rest with
        | c2 :: rest' => isLowSurrogate c2 && isWellFormed rest'
        | [] => false
        end
      else negb (isLowSurrogate c) && isWellFormed rest
  end.

(** The code points of a string ([Array.from(s, ch => ch.codePointAt(0))]). *)
Fixpoint codePoints (s : jsstring) : list Z :=
  match s with
  | [] => []
  | c :: rest =>
      if isHighSurrogate c then
        match rest with
        | c2 :: rest' =>
            if isLowSurrogate c2 then
              0x10000 + (c - 0xD800) * 1024 + (c2 - 0xDC00) :: codePoints rest'
            else c :: codePoints rest
        | [] => [c]
        end
      else c :: codePoints rest
  end.

(** ** Hexadecimal strings *)

Module Hex.

(** The digit of [d.toString(16)] for [0 <= d < 16]. *)
Definition digit (d : Z) : Z := if d <? 10 then 48 + d else 87 + d.

(** [b.toString(16).padStart(2, '0')] for an element [b] of a
    [Uint8Array]. *)
Definition byteToHex (b : Z) : jsstring :=
  if b <? 16 then [48; digit b] else [digit (b / 16); digit (b mod 16)].

(** ['0x' + Array.from(bs).map(b => b.toString(16).padStart(2, '0')).join('')] *)
Definition bytesToHex (bs : bytes) : jsstring :=
  js "0x" ++ flat_map byteToHex bs.

(** The value of a radix-16 digit, if the code unit is one. *)
Definition digitValue (c : Z) : option Z :=
  if (48 <=? c) && (c <=? 57) then Some (c - 48)
  else if (97 <=? c) && (c <=? 102) then Some (c - 87)
  else if (65 <=? c) && (c <=? 70) then Some (c - 55)
  else None.

(** [s.match(/.{2}/g)]: the successive pairs of code units; [.] does not
    match a line terminator, so the scan restarts after one. [null] (no
    match) is the empty list, as the source's [|| []] makes it. *)
Fixpoint matchPairs (s : jsstring) : list (Z * Z) :=
  match s with
  | a :: ((b :: rest) as tl) =>
      if isLineTerminator a || isLineTerminator b then matchPairs tl
      else (a, b) :: matchPairs rest
  | _ => []
  end.

(** [parseInt(pair, 16)] for a two-unit string, stored into a
    [Uint8Array]: leading white space and a sign are skipped, a [0x]
    prefix is stripped, the longest prefix of digits is read; [NaN] is
    stored as 0 and a negative value modulo 256. *)
Definition parseByte (p : Z * Z) : Z :=
  let (a, b) := p in
  match digitValue a with
  | Some va =>
      if (a =? 48) && ((b =? 120) || (b =? 88)) then 0
      else match digitValue b with
           | Some vb => 16 * va + vb
           | None => va
           end
  | None =>
      if isStrWhiteSpaceChar a || (a =? 43) then
        match digitValue b with Some vb => vb | None => 0 end
      else if a =? 45 then
        match digitValue b with Some vb => (256 - vb) mod 256 | None => 0 end
      else 0
  end.

(** [new Uint8Array(hex.slice(2).match(/.{2}/g)?.map(byte => parseInt(byte, 16)) || [])] *)
Definition hexToBytes (hex : jsstring) : bytes :=
  map parseByte (matchPairs (skipn 2 hex)).

(** ethers' [getBytes] on a string: accepted when it matches
    [/^0x(?:[0-9a-f][0-9a-f])*$/i], an exception otherwise. *)
Fixpoint parseDigitPairs (s : jsstring) : option bytes :=
  match s with
  | [] => Some []
  | a :: b :: rest =>
      match digitValue a, digitValue b, parseDigitPairs rest with
      | Some va, Some vb, Some bs => Some (16 * va + vb :: bs)
      | _, _, _ => None
      end
  | _ => None
  end.

Definition getBytes (s : jsstring) : option bytes :=
  match s with
  | z :: x :: rest =>
      if (z =? 48) && ((x =? 120) || (x =? 88)) then parseDigitPairs rest
      else None
  | _ => None
  end.

End Hex.

(** ** UTF-8 *)

Module Utf8.

(** ethers' [toUtf8Bytes(str)]: walks the code units; a high surrogate
    must be followed by a low one (otherwise the call throws), any other
    unit from 0x800 up is written on three bytes. *)
Fixpoint toUtf8Bytes (str : jsstring) : option bytes :=
  match str with
  | [] => Some []
  | c :: rest =>
      if c <? 0x80 then
        option_map (cons c) (toUtf8Bytes rest)
      else if c <? 0x800 then
        option_map
          (fun r => Z.lor (Z.shiftr c 6) 0xc0 :: Z.lor (Z.land c 0x3f) 0x80 :: r)
          (toUtf8Bytes rest)
      else if Z.land c 0xfc00 =? 0xd800 then
        match rest with
        | c2 :: rest' =>
            if Z.land c2 0xfc00 =? 0xdc00 then
              let pair :=
                0x10000 + Z.shiftl (Z.land c 0x03ff) 10 + Z.land c2 0x03ff in
              option_map
                (fun r =>
                   Z.lor (Z.shiftr pair 18) 0xf0
                   :: Z.lor (Z.land (Z.shiftr pair 12) 0x3f) 0x80
                   :: Z.lor (Z.land (Z.shiftr pair 6) 0x3f) 0x80
                   :: Z.lor (Z.land pair 0x3f) 0x80 :: r)
                (toUtf8Bytes rest')
            else None
        | [] => None
        end
      else
        option_map
          (fun r =>
             Z.lor (Z.shiftr c 12) 0xe0
             :: Z.lor (Z.land (Z.shiftr c 6) 0x3f) 0x80
             :: Z.lor (Z.land c 0x3f) 0x80 :: r)
          (toUtf8Bytes rest)
  end.

(** The state of the platform's UTF-8 decoder (WHATWG Encoding,
    "UTF-8 decoder"). *)
Record DecoderState := mkDecoder {
  codePoint : Z;
  bytesSeen : Z;
  bytesNeeded : Z;
  lowerBoundary : Z;
  upperBoundary : Z
}.

Definition initial : DecoderState := mkDecoder 0 0 0 0x80 0xBF.

Definition replacement : Z := 0xFFFD.

(** The handler on a byte when no sequence is open. *)
Definition handleLead (b : Z) : list Z * DecoderState :=
  if (0x00 <=? b) && (b <=? 0x7F) then ([b], initial)
  else if (0xC2 <=? b) && (b <=? 0xDF) then
    ([], mkDecoder (Z.land b 0x1F) 0 1 0x80 0xBF)
  else if (0xE0 <=? b) && (b <=? 0xEF) then
    ([], mkDecoder (Z.land b 0xF) 0 2
           (if b =? 0xE0 then 0xA0 else 0x80)
           (if b =? 0xED then 0x9F else 0xBF))
  else if (0xF0 <=? b) && (b <=? 0xF4) then
    ([], mkDecoder (Z.land b 0x7) 0 3
           (if b =? 0xF0 then 0x90 else 0x80)
           (if b =? 0xF4 then 0x8F else 0xBF))
  else ([replacement], initial).

(** The handler on one byte: the code points it emits and the next
    state. A byte outside the expected range closes the open sequence
    with U+FFFD and is then handled again as a lead byte. *)
Definition handler (st : DecoderState) (b : Z) : list Z * DecoderState :=
  if bytesNeeded st =? 0 then handleLead b
  else if negb ((lowerBoundary st <=? b) && (b <=? upperBoundary st)) then
    let (out, st') := handleLead b in (replacement :: out, st')
  else
    let cp := Z.lor (Z.shiftl (codePoint st) 6) (Z.land b 0x3F) in
    if bytesSeen st + 1 =? bytesNeeded st then ([cp], initial)
    else ([], mkDecoder cp (bytesSeen st + 1) (bytesNeeded st) 0x80 0xBF).

(** Running the decoder to the end of the input; an open sequence at
    the end emits U+FFFD. *)
Fixpoint run (st : DecoderState) (bs : bytes) : list Z :=
  match bs with
  | [] => if bytesNeeded st =? 0 then [] else [replacement]
  | b :: rest => let (out, st') := handler st b in out ++ run st' rest
  end.

(** A code point as UTF-16 code units. *)
Definition codeUnits (cp : Z) : jsstring :=
  if cp <? 0x10000 then [cp]
  else [0xD800 + Z.shiftr (cp - 0x10000) 10;
        0xDC00 + Z.land (cp - 0x10000) 0x3FF].

(** A leading U+FEFF is dropped (the decoder is created with the default
    [ignoreBOM: false]). *)
Definition stripBOM (cps : list Z) : list Z :=
  match cps with
  | cp :: rest => if cp =? 0xFEFF then rest else cps
  | [] => []
  end.

(** [new TextDecoder().decode(bs)]: never throws (the default is not
    [fatal]). *)
Definition decode (bs : bytes) : jsstring :=
  flat_map codeUnits (stripBOM (run initial bs)).

End Utf8.

(** ** Keccak-256

    The hash behind ethers' [keccak256] (the original Keccak padding,
    rate 136 bytes, 24 rounds of Keccak-f[1600] on 25 lanes of 64 bits,
    lane [(x, y)] at index [x + 5 * y]). *)

Module Keccak.

Definition mask64 : Z := 0xFFFFFFFFFFFFFFFF.

Definition rotl64 (x n : Z) : Z :=
  Z.land (Z.lor (Z.shiftl x n) (Z.shiftr x (64 - n))) mask64.

Definition lane (st : list Z) (i : Z) : Z := nth (Z.to_nat i) st 0.

Definition indices : list Z := map Z.of_nat (seq 0 25).

Definition rotationOffsets : list Z :=
  [ 0;  1; 62; 28; 27;
   36; 44;  6; 55; 20;
    3; 10; 43; 25; 39;
   41; 45; 15; 21;  8;
   18;  2; 61; 56; 14].

Definition roundConstants : list Z :=
  [0x0000000000000001; 0x0000000000008082; 0x800000000000808A;
   0x8000000080008000; 0x000000000000808B; 0x0000000080000001;
   0x8000000080008081; 0x8000000000008009; 0x000000000000008A;
   0x0000000000000088; 0x0000000080008009; 0x000000008000000A;
   0x000000008000808B; 0x800000000000008B; 0x8000000000008089;
   0x8000000000008003; 0x8000000000008002; 0x8000000000000080;
   0x000000000000800A; 0x800000008000000A; 0x8000000080008081;
   0x8000000000008080; 0x0000000080000001; 0x8000000080008008].

Definition theta (st : list Z) : list Z :=
  let C x :=
    Z.lxor (lane st x)
      (Z.lxor (lane st (x + 5))
         (Z.lxor (lane st (x + 10))
            (Z.lxor (lane st (x + 15)) (lane st (x + 20))))) in
  let D x := Z.lxor (C ((x + 4) mod 5)) (rotl64 (C ((x + 1) mod 5)) 1) in
  map (fun i => Z.lxor (lane st i) (D (i mod 5))) indices.

(** rho and pi together: lane [(x, y)] rotated goes to [(y, 2x + 3y)]. *)
Definition rhoPi (st : list Z) : list Z :=
  map (fun j =>
         let X := j mod 5 in
         let Y := j / 5 in
         let x := (X + 3 * Y) mod 5 in
         rotl64 (lane st (x + 5 * X)) (lane rotationOffsets (x + 5 * X)))
      indices.

Definition chi (st : list Z) : list Z :=
  map (fun i =>
         let x := i mod 5 in
         let y := i / 5 in
         Z.lxor (lane st i)
           (Z.land (Z.lxor (lane st ((x + 1) mod 5 + 5 * y)) mask64)
                   (lane st ((x + 2) mod 5 + 5 * y))))
      indices.

Definition iota (rc : Z) (st : list Z) : list Z :=
  match st with
  | a :: rest => Z.lxor a rc :: rest
  | [] => []
  end.

Definition round (st : list Z) (rc : Z) : list Z :=
  iota rc (chi (rhoPi (theta st))).

Definition keccakF (st : list Z) : list Z := fold_left round roundConstants st.

Definition rate : nat := 136.

(** pad10*1 with the Keccak domain bit: 0x01, zeros, 0x80 (0x81 when a
    single byte is missing). *)
Definition pad (msg : bytes) : bytes :=
  let r := (rate - Nat.modulo (length msg) rate)%nat in
  if Nat.eqb r 1 then msg ++ [0x81]
  else msg ++ [0x01] ++ repeat 0 (r - 2) ++ [0x80].

(** Eight bytes, least significant first, as a lane. *)
Definition laneOfBytes (bs : bytes) : Z :=
  fold_right (fun b acc => b + 256 * acc) 0 bs.

Fixpoint bytesOfLane (n : nat) (l : Z) : bytes :=
  match n with
  | O => []
  | S n' => l mod 256 :: bytesOfLane n' (l / 256)
  end.

Fixpoint lanesOfBlock (n : nat) (block : bytes) : list Z :=
  match n with
  | O => []
  | S n' => laneOfBytes (firstn 8 block) :: lanesOfBlock n' (skipn 8 block)
  end.

Definition absorbBlock (st : list Z) (block : bytes) : list Z :=
  let ls := lanesOfBlock 17 block in
  keccakF (map (fun i => Z.lxor (lane st i) (lane ls i)) indices).

Fixpoint absorb (fuel : nat) (st : list Z) (msg : bytes) : list Z :=
  match fuel with
  | O => st
  | S fuel' =>
      match msg with
      | [] => st
      | _ => absorb fuel' (absorbBlock st (firstn rate msg)) (skipn rate msg)
      end
  end.

Definition keccak256 (msg : bytes) : bytes :=
  let padded := pad msg in
  let st := absorb (length padded) (repeat 0 25) padded in
  flat_map (bytesOfLane 8) (firstn 4 st).

End Keccak.

(** ** Addresses (ethers' [getAddress]) *)

Module Address.

Definition isHexDigit (c : Z) : bool :=
  match Hex.digitValue c with Some _ => true | None => false end.

(** [toLowerCase] and [toUpperCase] on the code units of an ASCII
    string (the only strings they are applied to here are made of
    hexadecimal digits and the [0x] prefix). *)
Definition lowerUnit (c : Z) : Z :=
  if (65 <=? c) && (c <=? 90) then c + 32 else c.

Definition upperUnit (c : Z) : Z :=
  if (97 <=? c) && (c <=? 122) then c - 32 else c.

(** The loop of [getChecksumAddress]: byte [i >> 1] of the hash decides
    the case of characters [i] and [i + 1]. *)
Fixpoint applyCase (hashed : bytes) (chars : jsstring) : jsstring :=
  match hashed, chars with
  | h :: hs, c1 :: c2 :: cs =>
      (if 8 <=? Z.shiftr h 4 then upperUnit c1 else c1)
      :: (if 8 <=? Z.land h 0x0f then upperUnit c2 else c2)
      :: applyCase hs cs
  | _, _ => chars
  end.

(** [getChecksumAddress(address)] on [0x] followed by 40 digits. *)
Definition getChecksumAddress (address : jsstring) : jsstring :=
  let chars := skipn 2 (map lowerUnit address) in
  let hashed := Keccak.keccak256 (firstn 40 chars) in
  js "0x" ++ applyCase (firstn 20 hashed) chars.

Definition fortyDigits (s : jsstring) : bool :=
  Nat.eqb (List.length s) 40 && forallb isHexDigit s.

Definition startsWith0x (s : jsstring) : bool :=
  match s with a :: b :: _ => (a =? 48) && (b =? 120) | _ => false end.

(** [/^(0x)?[0-9a-fA-F]{40}$/] *)
Definition matchesHexAddress (s : jsstring) : bool :=
  fortyDigits s || (startsWith0x s && fortyDigits (skipn 2 s)).

(** [/([A-F].*[a-f])|([a-f].*[A-F])/]: letters of both cases occur. *)
Definition mixedCase (s : jsstring) : bool :=
  existsb (fun c => (65 <=? c) && (c <=? 70)) s &&
  existsb (fun c => (97 <=? c) && (c <=? 102)) s.

(** [getAddress(address)], hexadecimal branch: the checksum form of the
    address, or an exception for a mixed-case string whose case is not
    its checksum. The direct-ICAP branch (strings matching
    [/^XE[0-9]{2}[0-9A-Za-z]{30,31}$/]) is outside this model: the
    statements below only use [getAddress] where it returns a value. *)
Definition getAddress (address : jsstring) : option jsstring :=
  if matchesHexAddress address then
    let address := if startsWith0x address then address
                   else js "0x" ++ address in
    let result := getChecksumAddress address in
    if mixedCase address && negb (str_eqb result address) then None
    else Some result
  else None.

End Address.

(** ** ABI coding of one [address] (ethers' [AbiCoder]) *)

Module Abi.

(** [BigInt(hex)] on the digits after [0x]. *)
Definition hexToInteger (digits : jsstring) : Z :=
  fold_left
    (fun acc c =>
       16 * acc + match Hex.digitValue c with Some v => v | None => 0 end)
    digits 0.

(** The [n] low bytes of [v], most significant first. *)
Fixpoint toBigEndian (n : nat) (v : Z) : bytes :=
  match n with
  | O => []
  | S n' => toBigEndian n' (v / 256) ++ [v mod 256]
  end.

Definition fromBigEndian (bs : bytes) : Z :=
  fold_left (fun acc b => 256 * acc + b) bs 0.

(** The [n] low hexadecimal digits of [v], most significant first. *)
Fixpoint hexDigits (n : nat) (v : Z) : jsstring :=
  match n with
  | O => []
  | S n' => hexDigits n' (v / 16) ++ [Hex.digit (v mod 16)]
  end.

(** [toBeHex(v, 20)]: throws when [v] does not fit 20 bytes. *)
Definition toBeHex20 (v : Z) : option jsstring :=
  if v <? 2 ^ 160 then Some (js "0x" ++ hexDigits 40 v) else None.

(** [abiCoder.encode(['address'], [value])]: the address is validated by
    [getAddress] and written as one 32-byte word. *)
Definition encodeAddress (value : jsstring) : option jsstring :=
  match Address.getAddress value with
  | Some a => Some (Hex.bytesToHex (toBigEndian 32 (hexToInteger (skipn 2 a))))
  | None => None
  end.

(** [abiCoder.decode(['address'], data)[0]]: reads one 32-byte word
    (an exception if the data is shorter; bytes after the word are not
    looked at), which must fit 20 bytes, and returns it in checksum
    form. *)
Definition decodeAddress (data : jsstring) : option jsstring :=
  match Hex.getBytes data with
  | Some bs =>
      if (List.length bs <? 32)%nat then None
      else match toBeHex20 (fromBigEndian (firstn 32 bs)) with
           | Some h => Address.getAddress h
           | None => None
           end
  | None => None
  end.

End Abi.

(** ** Record types ([constants/recordTypes.ts]) *)

Module RecordTypes.
Definition TYPE_A : Z := 1.
Definition TYPE_TXT : Z := 16.
Definition TYPE_ETH_ADDRESS : Z := 65280.
Definition TYPE_BTC_ADDRESS : Z := 65281.
Definition TYPE_SOL_ADDRESS : Z := 65282.
Definition TYPE_PUBKEY : Z := 65344.
Definition TYPE_DID : Z := 65345.
Definition TYPE_CONTENT_HASH : Z := 65408.
Definition TYPE_IPFS_CID : Z := 65409.
Definition TYPE_SWARM_HASH : Z := 65410.
Definition TYPE_ARWEAVE_ID : Z := 65411.
End RecordTypes.

(** ** The JavaScript [Map], keyed by strings

    Entries are kept in insertion order; [set] on a key already present
    replaces the value in place. *)

Module JsMap.
Section WithValue.
Context {V : Type}.

Definition t := list (jsstring * V).

Definition empty : t := [].

Fixpoint set (k : jsstring) (v : V) (m : t) : t :=
  match m with
  | [] => [(k, v)]
  | (k', v') :: m' =>
      if str_eqb k k' then (k, v) :: m' else (k', v') :: set k v m'
  end.

Fixpoint get (k : jsstring) (m : t) : option V :=
  match m with
  | [] => None
  | (k', v') :: m' => if str_eqb k k' then Some v' else get k m'
  end.

Definition has (k : jsstring) (m : t) : bool :=
  match get k m with Some _ => true | None => false end.

(** [Array.from(m.values())] *)
Definition values (m : t) : list V := map snd m.

End WithValue.
Arguments t : clear implicits.
End JsMap.

(** ** The 32-byte keys

    The same four lines build the key of a name in [checkAvailability]
    ([web3.ts]), in [loadResolverData] and in [updateRecord], and the key
    of a label in [updateRecord]. *)

Module KeyCodec.

(** [const k = new Uint8Array(32); k.set(bs.slice(0, 32));] *)
Definition toBytes32 (bs : bytes) : bytes :=
  let head := firstn 32 bs in
  head ++ repeat 0 (32 - List.length head).

(** The key of [text] as a hexadecimal string; [toUtf8Bytes] may throw. *)
Definition bytes32Hex (text : jsstring) : option jsstring :=
  option_map (fun bs => Hex.bytesToHex (toBytes32 bs)) (Utf8.toUtf8Bytes text).

(** ['0x' + '0'.repeat(64)] *)
Definition zeroKey : jsstring := js "0x" ++ repeat 48 64.

End KeyCodec.

(** ** Events of the resolver, as ethers returns them

    [queryFilter] returns an [EventLog], with [args = [name, label,
    recordType, data]]: [name], [label] and [data] as hexadecimal
    strings, [recordType] (a [uint16]) as a number or, since ethers 6, a
    bigint. It returns a bare [Log] without [args] when the entry could
    not be parsed. *)

Inductive JsNumeric :=
| JsNumber (n : Z)
| JsBigInt (n : Z).

(** [Number(x)], exact on a [uint16]. *)
Definition toNumber (x : JsNumeric) : Z :=
  match x with
  | JsNumber n => n
  | JsBigInt n => n
  end.

(** [x === c] for a number [c]: never true of a bigint. *)
Definition strictEqualsNumber (x : JsNumeric) (c : Z) : bool :=
  match x with
  | JsNumber n => n =? c
  | JsBigInt _ => false
  end.

Record EventArgs := mkArgs {
  args_name : jsstring;
  args_label : jsstring;
  args_recordType : JsNumeric;
  args_data : jsstring
}.

(** [Number(event.args?.[2])] *)
Definition recordTypeOf (args : EventArgs) : Z :=
  toNumber (args_recordType args).

Inductive LogEntry :=
| EventLog (args : EventArgs)
| Log.

(** ** [web3.ts] *)

Module Web3Service.

(** [checkAvailability(username)]: the [nameHex] passed to
    [registryContract.available]. *)
Definition nameHex (username : jsstring) : option jsstring :=
  KeyCodec.bytes32Hex username.

End Web3Service.

(** ** [pages/HomePage.tsx] *)

Module HomePage.

(** [loadMyDomains]: the name shown for the [nameBytes32] of a
    [NameRegistered] event. *)
Definition nameStr (nameBytes32 : jsstring) : jsstring :=
  removeNul (Utf8.decode (Hex.hexToBytes nameBytes32)).

(** How [checkAvailability] goes, as far as the key is concerned: it
    returns after [setError(message)], an exception reaches its [catch],
    or [nameHex] is sent to the registry. *)
Inductive Availability :=
| ErrorShown (message : jsstring)
| Thrown
| KeySent (nameHex : jsstring).

Section RegisterForm.
(** [String.prototype.toLowerCase], the host's Unicode case mapping. *)
Variable toLowerCase : jsstring -> jsstring.

(** The [onChange] handler of the register input:
    [setRegisterUsername(e.target.value.toLowerCase())]. *)
Definition onChangeRegisterUsername (value : jsstring) : jsstring :=
  toLowerCase value.

(** [checkAvailability] of the page, up to its call of
    [contracts.registry.available(nameHex)]: the two guards before the
    [try], [getContracts()] giving [null], [toUtf8Bytes] throwing (the
    [catch] shows the message of the exception), or the key sent. *)
Definition checkAvailability (walletClient contracts : bool)
    (registerUsername : jsstring) : Availability :=
  if falsy registerUsername then ErrorShown (js "Please enter a username")
  else if negb walletClient then
    ErrorShown (js "Please connect your wallet first")
  else if negb contracts then ErrorShown (js "Failed to initialize contracts")
  else
    match KeyCodec.bytes32Hex registerUsername with
    | Some nameHex => KeySent nameHex
    | None => Thrown
    end.

(** [checkAvailability] on the state the [onChange] handler left for a
    text typed in the register input. *)
Definition registerNameHex (walletClient contracts : bool)
    (typed : jsstring) : Availability :=
  checkAvailability walletClient contracts (onChangeRegisterUsername typed).
End RegisterForm.

End HomePage.

(** ** Asynchronous handlers: state and exceptions

    A handler of a page is a function of the page's state that either
    returns or throws; [await] is sequencing. *)

Inductive Exn :=
| InvalidArgument          (* ethers rejected an argument (bad surrogate pair, bad address) *)
| LedgerError (message : jsstring).  (* the provider or the contract rejected a call *)

Inductive Result (A : Type) :=
| Ok (a : A)
| Throw (e : Exn).
Arguments Ok {A} a.
Arguments Throw {A} e.

Module Handler.
Section WithState.
Context {S : Type}.

Definition M (A : Type) := S -> Result A * S.

Definition ret {A} (a : A) : M A := fun s => (Ok a, s).

Definition throw {A} (e : Exn) : M A := fun s => (Throw e, s).

Definition bind {A B} (m : M A) (k : A -> M B) : M B :=
  fun s => match m s with
           | (Ok a, s') => k a s'
           | (Throw e, s') => (Throw e, s')
           end.

Definition modify (f : S -> S) : M unit := fun s => (Ok tt, f s).

Definition gets {A} (f : S -> A) : M A := fun s => (Ok (f s), s).

(** a library call that may throw *)
Definition orThrow {A} (e : Exn) (o : option A) : M A :=
  match o with Some a => ret a | None => throw e end.

(** [try { body } catch (err) { handler(err) }] *)
Definition tryCatch {A} (body : M A) (handler : Exn -> M A) : M A :=
  fun s => match body s with
           | (Ok a, s') => (Ok a, s')
           | (Throw e, s') => handler e s'
           end.

(** [try { body } finally { cleanup }] *)
Definition finally {A} (body : M A) (cleanup : M unit) : M A :=
  fun s => match body s with
           | (r, s') => match cleanup s' with
                        | (Ok _, s'') => (r, s'')
                        | (Throw e, s'') => (Throw e, s'')
                        end
           end.

End WithState.
Arguments M : clear implicits.
End Handler.

Declare Scope handler_scope.
Delimit Scope handler_scope with handler.
Notation "x <- m ;; k" := (Handler.bind m (fun x => k))
  (at level 61, m at next level, right associativity) : handler_scope.
Notation "m ;; k" := (Handler.bind m (fun _ => k))
  (at level 61, right associativity) : handler_scope.

(** ** [pages/RecordsPage.tsx] *)

Module RecordsPage.
Import RecordTypes.

Record RecordData := mkRecord {
  recordType : Z;
  label : jsstring;
  data : jsstring;
  decodedValue : jsstring
}.

(** *** The reduction loop of [loadResolverData] *)

(** The [label] decoded from [event.args[1]]. *)
Definition decodeLabel (labelHex : jsstring) : jsstring :=
  if negb (falsy labelHex) && negb (str_eqb labelHex KeyCodec.zeroKey) then
    removeNul (Utf8.decode (Hex.hexToBytes labelHex))
  else [].

(** [`${recordType}-${label}`] *)
Definition recordKey (recordType : Z) (label : jsstring) : jsstring :=
  numberToString recordType ++ js "-" ++ label.

Definition isAddressType (recordType : Z) : bool :=
  (recordType =? TYPE_ETH_ADDRESS) || (recordType =? TYPE_BTC_ADDRESS) ||
  (recordType =? TYPE_SOL_ADDRESS).

(** [data && data !== '0x'] *)
Definition hasData (data : jsstring) : bool :=
  negb (falsy data) && negb (str_eqb data (js "0x")).

(** The [decodedValue] computed from [event.args[3]]. *)
Definition decodeData (recordType : Z) (data : jsstring) : jsstring :=
  if hasData data then
    if isAddressType recordType then
      match Abi.decodeAddress data with
      | Some address => address
      | None => data
      end
    else Utf8.decode (Hex.hexToBytes data)
  else [].

Definition entryOf (args : EventArgs) : RecordData :=
  mkRecord (recordTypeOf args) (decodeLabel (args_label args))
           (args_data args)
           (decodeData (recordTypeOf args) (args_data args)).

Definition keyOf (args : EventArgs) : jsstring :=
  recordKey (recordTypeOf args) (decodeLabel (args_label args)).

(** One turn of [for (const event of events)]. *)
Definition processEvent (recordMap : JsMap.t RecordData) (event : LogEntry)
  : JsMap.t RecordData :=
  match event with
  | Log => recordMap
  | EventLog args => JsMap.set (keyOf args) (entryOf args) recordMap
  end.

(** Whether an event writes the entry of key [k]. *)
Definition writes (k : jsstring) (event : LogEntry) : bool :=
  match event with
  | EventLog args => str_eqb (keyOf args) k
  | Log => false
  end.

(** The [recordMap] after the loop. *)
Definition reduce (events : list LogEntry) : JsMap.t RecordData :=
  fold_left processEvent events JsMap.empty.

(** *** The page and its collaborators *)

Record Call := mkCall {
  call_name : jsstring;
  call_recordType : Z;
  call_label : jsstring;
  call_data : jsstring
}.

(** What the page is given: the route parameter, the wallet, and the
    resolver contract seen through its three entry points. *)
Record Env := mkEnv {
  domainName : option jsstring;          (* [useParams().domainName] *)
  walletClient : bool;                   (* [useWalletClient().data] is set *)
  signerAvailable : bool;                (* [provider.getSigner()] succeeds *)
  queryFilter : jsstring -> Result (list LogEntry);
  setRecord : Call -> Result jsstring;   (* the transaction hash *)
  wait : jsstring -> Result unit
}.

Inductive Banner :=
| NoError                 (* [''] *)
| Message (e : Exn).      (* [(err as Error).message] *)

(** The state of the component, with the calls that reached
    [resolver.setRecord] and the [alert]s shown. *)
Record Page := mkPage {
  loading : bool;
  error : Banner;
  records : list RecordData;
  editingRecordKey : option jsstring;
  editValue : jsstring;
  editType : Z;
  editLabel : jsstring;
  submitted : list Call;
  alerts : list jsstring
}.

Definition setLoading (b : bool) (p : Page) : Page :=
  mkPage b (error p) (records p) (editingRecordKey p) (editValue p)
         (editType p) (editLabel p) (submitted p) (alerts p).

Definition setError (e : Banner) (p : Page) : Page :=
  mkPage (loading p) e (records p) (editingRecordKey p) (editValue p)
         (editType p) (editLabel p) (submitted p) (alerts p).

Definition setRecords (rs : list RecordData) (p : Page) : Page :=
  mkPage (loading p) (error p) rs (editingRecordKey p) (editValue p)
         (editType p) (editLabel p) (submitted p) (alerts p).

(** [setEditingRecordKey(null); setEditValue(''); setEditType(TYPE_A);
    setEditLabel('')] *)
Definition resetEdit (p : Page) : Page :=
  mkPage (loading p) (error p) (records p) None [] TYPE_A []
         (submitted p) (alerts p).

Definition recordCall (c : Call) (p : Page) : Page :=
  mkPage (loading p) (error p) (records p) (editingRecordKey p) (editValue p)
         (editType p) (editLabel p) (submitted p ++ [c]) (alerts p).

Definition alert (hash : jsstring) (p : Page) : Page :=
  mkPage (loading p) (error p) (records p) (editingRecordKey p) (editValue p)
         (editType p) (editLabel p) (submitted p) (alerts p ++ [hash]).

(** [!domainName] *)
Definition noDomain (env : Env) : bool :=
  match domainName env with
  | Some name => falsy name
  | None => true
  end.

Definition domain (env : Env) : jsstring :=
  match domainName env with Some name => name | None => [] end.

Section Handlers.
Import Handler.
Local Open Scope handler_scope.
Variable env : Env.

(** [getResolverContract()]: [null] without a wallet or a signer. *)
Definition getResolverContract : bool :=
  walletClient env && signerAvailable env.

Definition loadResolverData : M Page unit :=
  if noDomain env || negb (walletClient env) then ret tt
  else
    finally
      (tryCatch
         (modify (setLoading true) ;;
          if negb getResolverContract then ret tt
          else
            nameHex <- orThrow InvalidArgument
                         (KeyCodec.bytes32Hex (domain env)) ;;
            events <- (fun p => (queryFilter env nameHex, p)) ;;
            modify (setRecords (JsMap.values (reduce events))))
         (fun err => modify (setError (Message err))))
      (modify (setLoading false)).

(** The [labelHex] argument of [setRecord]. *)
Definition labelHex (label : jsstring) : option jsstring :=
  if falsy label || str_eqb (trim label) [] then Some KeyCodec.zeroKey
  else KeyCodec.bytes32Hex label.

(** The [encodedData] argument of [setRecord]. *)
Definition encodedData (recordType : Z) (value : jsstring) : option jsstring :=
  if isAddressType recordType then Abi.encodeAddress value
  else option_map Hex.bytesToHex (Utf8.toUtf8Bytes value).

Definition updateRecord (recordType : Z) (label value : jsstring)
  : M Page unit :=
  if noDomain env || falsy value || negb (walletClient env) then ret tt
  else
    finally
      (tryCatch
         (modify (setError NoError) ;;
          modify (setLoading true) ;;
          if negb getResolverContract then ret tt
          else
            nameHex <- orThrow InvalidArgument
                         (KeyCodec.bytes32Hex (domain env)) ;;
            labelHex <- orThrow InvalidArgument (labelHex label) ;;
            encodedData <- orThrow InvalidArgument
                             (encodedData recordType value) ;;
            let call := mkCall nameHex recordType labelHex encodedData in
            modify (recordCall call) ;;
            tx <- (fun p => (setRecord env call, p)) ;;
            (fun p => (wait env tx, p)) ;;
            modify (alert tx) ;;
            modify resetEdit ;;
            loadResolverData)
         (fun err => modify (setError (Message err))))
      (modify (setLoading false)).

(** [handleSaveRecord] *)
Definition handleSaveRecord : M Page unit :=
  fun p => updateRecord (editType p) (editLabel p) (editValue p) p.

End Handlers.
End RecordsPage.

(** ** [App-old.tsx]: the earlier single-page version

    No route leads to it any more ([App.tsx] mounts [RecordsPage]). Its
    loop differs from the one above: events of other names and events
    without data are skipped, the map is keyed by the raw 32-byte label,
    and the record type is compared before its conversion to a number. *)

Module AppOld.
Import RecordTypes.

(** [`${recordType}-${label}`], [recordType] as received and [label]
    the hexadecimal string. *)
Definition recordKey (recordType : JsNumeric) (label : jsstring) : jsstring :=
  numberToString (toNumber recordType) ++ js "-" ++ label.

Definition labelStr (label : jsstring) : jsstring :=
  if negb (str_eqb label KeyCodec.zeroKey) then
    removeNul (Utf8.decode (Hex.hexToBytes label))
  else [].

(** The record type is compared as received ([recordType ===
    RecordTypes.TYPE_...]). *)
Definition decodedValue (recordType : JsNumeric) (data : jsstring) : jsstring :=
  if strictEqualsNumber recordType TYPE_ETH_ADDRESS ||
     strictEqualsNumber recordType TYPE_BTC_ADDRESS ||
     strictEqualsNumber recordType TYPE_SOL_ADDRESS then
    match Abi.decodeAddress data with
    | Some address => address
    | None => data
    end
  else removeNul (Utf8.decode (Hex.hexToBytes data)).

Definition processEvent (nameHex : jsstring)
    (recordMap : JsMap.t RecordsPage.RecordData) (event : LogEntry)
  : JsMap.t RecordsPage.RecordData :=
  match event with
  | Log => recordMap
  | EventLog args =>
      if negb (str_eqb (args_name args) nameHex) then recordMap
      else if falsy (args_data args) || str_eqb (args_data args) (js "0x")
      then recordMap
      else
        JsMap.set (recordKey (args_recordType args) (args_label args))
          (RecordsPage.mkRecord (recordTypeOf args)
             (labelStr (args_label args)) (args_data args)
             (decodedValue (args_recordType args) (args_data args)))
          recordMap
  end.

Definition reduce (nameHex : jsstring) (events : list LogEntry)
  : JsMap.t RecordsPage.RecordData :=
  fold_left (processEvent nameHex) events JsMap.empty.

End AppOld.

(** ** [pages/RecordsPage.tsx]: the table and the edit handlers *)

Module RecordsTable.
Import RecordTypes RecordsPage.

(** The object literal [typeNames] of [getRecordTypeName]. *)
Definition typeNames : list (Z * jsstring) :=
  [(TYPE_A, js "A"); (TYPE_TXT, js "TXT");
   (TYPE_ETH_ADDRESS, js "ETH Address"); (TYPE_BTC_ADDRESS, js "BTC Address");
   (TYPE_SOL_ADDRESS, js "SOL Address"); (TYPE_IPFS_CID, js "IPFS CID");
   (TYPE_CONTENT_HASH, js "Content Hash"); (TYPE_ARWEAVE_ID, js "Arweave");
   (TYPE_PUBKEY, js "Public Key"); (TYPE_DID, js "DID")].

(** [table[type]] *)
Fixpoint lookupType (type : Z) (table : list (Z * jsstring)) : option jsstring :=
  match table with
  | [] => None
  | (t, text) :: rest => if type =? t then Some text else lookupType type rest
  end.

(** [typeNames[type] || `Type ${type}`], for a non-negative integer. *)
Definition getRecordTypeName (type : Z) : jsstring :=
  match lookupType type typeNames with
  | Some text => if falsy text then js "Type " ++ numberToString type else text
  | None => js "Type " ++ numberToString type
  end.

Definition setEditValue (value : jsstring) (p : Page) : Page :=
  mkPage (loading p) (error p) (records p) (editingRecordKey p) value
         (editType p) (editLabel p) (submitted p) (alerts p).

Definition setEditLabel (value : jsstring) (p : Page) : Page :=
  mkPage (loading p) (error p) (records p) (editingRecordKey p) (editValue p)
         (editType p) value (submitted p) (alerts p).

Definition setEditType (type : Z) (p : Page) : Page :=
  mkPage (loading p) (error p) (records p) (editingRecordKey p) (editValue p)
         type (editLabel p) (submitted p) (alerts p).

Definition handleEditRecord (recordType : Z) (label currentValue : jsstring)
    (p : Page) : Page :=
  mkPage (loading p) (error p) (records p)
         (Some (recordKey recordType label)) currentValue recordType label
         (submitted p) (alerts p).

Definition handleCancelEdit (p : Page) : Page := resetEdit p.

Definition handleAddNewRecord (p : Page) : Page :=
  mkPage (loading p) (error p) (records p) (Some (js "new-record")) []
         TYPE_A [] (submitted p) (alerts p).

(** The [recordKey] of a row: [`${record.recordType}-${record.label}`]. *)
Definition rowKey (record : RecordData) : jsstring :=
  recordKey (recordType record) (label record).

(** [editingRecordKey === recordKey] *)
Definition isEditing (p : Page) (record : RecordData) : bool :=
  match editingRecordKey p with
  | Some key => str_eqb key (rowKey record)
  | None => false
  end.

(** [editingRecordKey === 'new-record']: the row of a new record is shown. *)
Definition showsNewRow (p : Page) : bool :=
  match editingRecordKey p with
  | Some key => str_eqb key (js "new-record")
  | None => false
  end.

(** The text of the value cell: [record.decodedValue || record.data]. *)
Definition shownValue (record : RecordData) : jsstring :=
  if falsy (decodedValue record) then data record else decodedValue record.

(** The [onClick] of the Edit button of a row:
    [handleEditRecord(record.recordType, record.label, record.decodedValue || '')]. *)
Definition onEditClick (record : RecordData) (p : Page) : Page :=
  handleEditRecord (recordType record) (label record)
    (if falsy (decodedValue record) then [] else decodedValue record) p.

End RecordsTable.

(** ** [pages/HomePage.tsx]: the list of the user's names *)

Module MyDomains.

(** What the loop reads of [registry.records(name)]: [owner] and
    [expires], a [uint64] that ethers returns as a bigint. *)
Record RegistryRecord := mkRegistryRecord {
  record_owner : jsstring;
  record_expires : Z
}.

(** [DomainInfo]; [expires] is [Number(record.expires)], kept as the
    integer it is exact for (below 2^53). *)
Record DomainInfo := mkDomain {
  domain_name : jsstring;
  domain_label : jsstring;
  domain_owner : jsstring;
  domain_expires : Z
}.

(** An entry of [queryFilter(NameRegistered(userAddress))] as the loop
    meets it: a bare [Log], or an [EventLog] with its [args[1]] (a
    hexadecimal string), what [registry.records] answered when asked for
    it, and the value of [Date.now()], in milliseconds, when the answer
    was tested. *)
Inductive Turn :=
| BareLog
| Registered (nameBytes32 : jsstring) (answer : Result RegistryRecord)
             (now : Z).

Section Loop.
(** [String.prototype.toLowerCase], the host's Unicode case mapping. *)
Variable toLowerCase : jsstring -> jsstring.
Variable userAddress : jsstring.

(** [record.owner.toLowerCase() === userAddress.toLowerCase() &&
    Number(record.expires) > Date.now() / 1000]. The comparison of the
    two doubles is the comparison of the integers [1000 * expires] and
    [now]: the clock is below 2^53, its quotient by 1000 is below 2^44,
    where two doubles are less than 1/500 apart, and the rounding of
    [Number] is monotone. *)
Definition isActive (record : RegistryRecord) (now : Z) : bool :=
  str_eqb (toLowerCase (record_owner record)) (toLowerCase userAddress) &&
  (now <? 1000 * record_expires record).

(** The object pushed on [domains]. *)
Definition domainOf (nameBytes32 : jsstring) (record : RegistryRecord)
  : DomainInfo :=
  mkDomain (HomePage.nameStr nameBytes32 ++ js ".dweb")
           (HomePage.nameStr nameBytes32)
           (record_owner record) (record_expires record).

(** [for (const event of events)], from the [domains] built so far; an
    exception of [registry.records] leaves the loop. *)
Fixpoint loop (turns : list Turn) (domains : list DomainInfo)
  : Result (list DomainInfo) :=
  match turns with
  | [] => Ok domains
  | BareLog :: rest => loop rest domains
  | Registered nameBytes32 answer now :: rest =>
      match answer with
      | Throw e => Throw e
      | Ok record =>
          if isActive record now
          then loop rest (domains ++ [domainOf nameBytes32 record])
          else loop rest domains
      end
  end.

(** [loadMyDomains(userAddress)]: the value of [myDomains] it leaves.
    [contracts] tells whether [getContracts()] gave the contracts;
    [events] is the outcome of [queryFilter]. Every exception is caught
    and logged. *)
Definition loadMyDomains (contracts : bool) (events : Result (list Turn))
    (myDomains : list DomainInfo) : list DomainInfo :=
  if negb contracts then myDomains
  else
    match events with
    | Throw _ => myDomains
    | Ok turns =>
        match loop turns [] with
        | Ok domains => domains
        | Throw _ => myDomains
        end
    end.

End Loop.
End MyDomains.

(** ** [pages/HomePage.tsx]: the message shown after a failure *)

Module FailureMessages.

(** [s.startsWith(text)] and [s.includes(text)] *)
Fixpoint startsWith (text s : jsstring) : bool :=
  match text, s with
  | [], _ => true
  | t :: text', c :: s' => (t =? c) && startsWith text' s'
  | _ :: _, [] => false
  end.

Fixpoint includes (s text : jsstring) : bool :=
  startsWith text s ||
  match s with
  | [] => false
  | _ :: s' => includes s' text
  end.

(** The value caught, read as [{ code?: string; reason?: string;
    message?: string }]; [None] is a field that is absent or [null]. *)
Record JsError := mkError {
  code : option jsstring;
  reason : option jsstring;
  message : option jsstring
}.

(** [error.code === c] *)
Definition codeIs (error : JsError) (c : jsstring) : bool :=
  match code error with
  | Some x => str_eqb x c
  | None => false
  end.

(** [error.message?.includes(text)] as a condition *)
Definition messageIncludes (error : JsError) (text : jsstring) : bool :=
  match message error with
  | Some m => includes m text
  | None => false
  end.

(** The last two branches, [else if (error.reason) ... else if
    (error.message) ...], over the default message. *)
Definition reasonOrMessage (error : JsError) (errorMessage : jsstring)
  : jsstring :=
  match reason error with
  | Some r =>
      if negb (falsy r) then js "Error: " ++ r
      else match message error with
           | Some m => if negb (falsy m) then m else errorMessage
           | None => errorMessage
           end
  | None =>
      match message error with
      | Some m => if negb (falsy m) then m else errorMessage
      | None => errorMessage
      end
  end.

(** The [catch] of [registerDomain]. *)
Definition registrationError (error : JsError) : jsstring :=
  if codeIs error (js "ACTION_REJECTED") ||
     messageIncludes error (js "user rejected") then
    js "Transaction was rejected. Please try again and approve the transaction in your wallet."
  else if messageIncludes error (js "insufficient funds") then
    js "Insufficient funds. Please make sure you have enough ETH for the registration fee and gas."
  else if messageIncludes error (js "name taken") then
    js "This domain name is already taken. Please try a different name."
  else reasonOrMessage error (js "Registration failed").

(** The [catch] of [handleRenewFromDialog]. *)
Definition renewalError (error : JsError) : jsstring :=
  if codeIs error (js "ACTION_REJECTED") ||
     messageIncludes error (js "user rejected") then
    js "Transaction was rejected. Please try again and approve the transaction in your wallet."
  else if messageIncludes error (js "insufficient funds") then
    js "Insufficient funds. Please make sure you have enough ETH for the renewal fee and gas."
  else reasonOrMessage error (js "Renewal failed").

End FailureMessages.

(** * Properties *)

(** ** Strings and maps *)

Lemma str_eqb_eq (a b : jsstring) : str_eqb a b = true <-> a = b.
Proof.
  revert b; induction a as [|x a IH]; intros [|y b]; simpl;
    try (split; [discriminate | congruence]); try tauto.
  rewrite andb_true_iff, Z.eqb_eq, IH. split.
  - intros [-> ->]; reflexivity.
  - intros H; inversion H; auto.
Qed.

Lemma str_eqb_refl (a : jsstring) : str_eqb a a = true.
Proof. apply str_eqb_eq; reflexivity. Qed.

Lemma str_eqb_neq (a b : jsstring) : a <> b -> str_eqb a b = false.
Proof.
  intros H; destruct (str_eqb a b) eqn:E; [|reflexivity].
  apply str_eqb_eq in E; contradiction.
Qed.

Section MapFacts.
Context {V : Type}.
Implicit Types (m : JsMap.t V) (k : jsstring) (v : V).

Lemma get_set_same m k v : JsMap.get k (JsMap.set k v m) = Some v.
Proof.
  induction m as [|[k' v'] m IH]; simpl.
  - now rewrite str_eqb_refl.
  - destruct (str_eqb k k') eqn:E; simpl.
    + now rewrite str_eqb_refl.
    + now rewrite E.
Qed.

Lemma get_set_other m k k' v :
  k <> k' -> JsMap.get k (JsMap.set k' v m) = JsMap.get k m.
Proof.
  intros Hne. induction m as [|[k0 v0] m IH]; simpl.
  - now rewrite (str_eqb_neq k k').
  - destruct (str_eqb k' k0) eqn:E; simpl.
    + apply str_eqb_eq in E; subst k0.
      now rewrite (str_eqb_neq k k').
    + now rewrite IH.
Qed.

(** [set] on a present key keeps the position of the entry, on an
    absent key appends. *)
Lemma keys_set m k v :
  map fst (JsMap.set k v m)
  = if JsMap.has k m then map fst m else map fst m ++ [k].
Proof.
  unfold JsMap.has. induction m as [|[k0 v0] m IH]; simpl; [reflexivity|].
  destruct (str_eqb k k0) eqn:E; simpl.
  - apply str_eqb_eq in E; now subst.
  - rewrite IH. now destruct (JsMap.get k m).
Qed.

End MapFacts.

Lemma js_inj (s t : string) : js s = js t -> s = t.
Proof.
  unfold js. intros H.
  rewrite <- (string_of_list_ascii_of_string s),
          <- (string_of_list_ascii_of_string t).
  f_equal.
  revert H. generalize (list_ascii_of_string s) (list_ascii_of_string t).
  induction l as [|a l IH]; intros [|b l']; simpl; try discriminate; auto.
  intros H. inversion H as [[Hh Ht]]. f_equal; auto.
  apply N2Z.inj in Hh.
  rewrite <- (ascii_N_embedding a), <- (ascii_N_embedding b).
  now rewrite Hh.
Qed.

Lemma digits_of_uint (d : Decimal.uint) :
  Forall isDecimalDigit (js (NilEmpty.string_of_uint d)).
Proof.
  induction d; simpl; constructor; auto; unfold isDecimalDigit; simpl; lia.
Qed.

Lemma numberToString_digits (n : Z) : Forall isDecimalDigit (numberToString n).
Proof.
  unfold numberToString, NilZero.string_of_uint.
  destruct (N.to_uint (Z.to_N n)) eqn:E; try (rewrite <- E; apply digits_of_uint).
  repeat constructor; unfold isDecimalDigit; simpl; lia.
Qed.

Lemma to_uint_not_nil (n : N) : N.to_uint n <> Decimal.Nil.
Proof.
  intros H. pose proof (DecimalN.Unsigned.to_of (N.to_uint n)) as E.
  rewrite DecimalN.Unsigned.of_to in E. rewrite H in E at 2.
  destruct n; simpl in *; [discriminate|].
  rewrite H in E. simpl in E. discriminate.
Qed.

Lemma numberToString_inj (a b : Z) :
  0 <= a -> 0 <= b -> numberToString a = numberToString b -> a = b.
Proof.
  unfold numberToString. intros Ha Hb H.
  apply js_inj in H.
  assert (E : Some (N.to_uint (Z.to_N a)) = Some (N.to_uint (Z.to_N b))).
  { rewrite <- (NilZero.usu (N.to_uint (Z.to_N a))) by apply to_uint_not_nil.
    rewrite <- (NilZero.usu (N.to_uint (Z.to_N b))) by apply to_uint_not_nil.
    now rewrite H. }
  inversion E as [E']. apply DecimalN.Unsigned.to_uint_inj in E'. lia.
Qed.

(** Splitting at the first occurrence of a separator. *)
Lemma app_sep_inj (x : Z) (a a' b b' : list Z) :
  ~ In x a -> ~ In x a' -> a ++ x :: b = a' ++ x :: b' -> a = a' /\ b = b'.
Proof.
  revert a'. induction a as [|y a IH]; intros [|y' a'] Ha Ha' H; simpl in *.
  - inversion H; auto.
  - inversion H; subst. tauto.
  - inversion H; subst. tauto.
  - inversion H; subst.
    destruct (IH a') as [-> ->]; auto.
Qed.

Lemma digits_no_dash (s : jsstring) : Forall isDecimalDigit s -> ~ In 45 s.
Proof.
  intros H Hin. rewrite Forall_forall in H. apply H in Hin.
  unfold isDecimalDigit in Hin. lia.
Qed.

(** ** The reduction of [RecordsPage] *)

Module ReduceFacts.
Import RecordsPage.

(** The map key is the pair of the record type and the decoded label. *)
Lemma recordKey_inj (t1 t2 : Z) (l1 l2 : jsstring) :
  0 <= t1 -> 0 <= t2 ->
  recordKey t1 l1 = recordKey t2 l2 -> t1 = t2 /\ l1 = l2.
Proof.
  unfold recordKey. intros H1 H2 H. change (js "-") with [45] in H. simpl in H.
  apply app_sep_inj in H;
    try (apply digits_no_dash, numberToString_digits).
  destruct H as [Hn Hl]. split; auto using numberToString_inj.
Qed.

Lemma get_processEvent_other k m event :
  writes k event = false ->
  JsMap.get k (processEvent m event) = JsMap.get k m.
Proof.
  destruct event as [args|]; simpl; [|reflexivity].
  intros H. apply get_set_other. intros ->.
  now rewrite str_eqb_refl in H.
Qed.

Lemma get_fold_other k events : forall m,
  forallb (fun e => negb (writes k e)) events = true ->
  JsMap.get k (fold_left processEvent events m) = JsMap.get k m.
Proof.
  induction events as [|e events IH]; simpl; intros m H; [reflexivity|].
  apply andb_true_iff in H as [He Hes].
  rewrite IH by assumption.
  apply get_processEvent_other. now destruct (writes k e).
Qed.

(** The entry of a key is the one of the last event that wrote it. *)
Lemma get_last_writer pre args post :
  forallb (fun e => negb (writes (keyOf args) e)) post = true ->
  JsMap.get (keyOf args) (reduce (pre ++ EventLog args :: post))
  = Some (entryOf args).
Proof.
  intros H. unfold reduce. rewrite fold_left_app. simpl.
  rewrite get_fold_other by assumption. apply get_set_same.
Qed.

Lemma set_set (V : Type) (m : JsMap.t V) k v1 v2 :
  JsMap.set k v2 (JsMap.set k v1 m) = JsMap.set k v2 m.
Proof.
  induction m as [|[k0 v0] m IH]; simpl.
  - now rewrite str_eqb_refl.
  - destruct (str_eqb k k0) eqn:E; simpl.
    + now rewrite str_eqb_refl.
    + now rewrite E, IH.
Qed.

End ReduceFacts.

(** ** Bit operations as arithmetic *)

Module BitFacts.

Lemma lor_add (hi lo n : Z) :
  0 <= n -> 0 <= lo < 2 ^ n -> Z.lor (hi * 2 ^ n) lo = hi * 2 ^ n + lo.
Proof.
  intros Hn Hlo.
  assert (H0 : Z.land (hi * 2 ^ n) lo = 0).
  { apply Z.bits_inj'. intros i Hi.
    rewrite Z.land_spec, Z.bits_0.
    destruct (Z.lt_ge_cases i n).
    - now rewrite Z.mul_pow2_bits_low by lia.
    - rewrite <- (Z.mod_small lo (2 ^ n)) by lia.
      rewrite (Z.mod_pow2_bits_high lo n i) by lia.
      apply andb_false_r. }
  rewrite <- Z.lxor_lor by assumption.
  symmetry. now apply Z.add_nocarry_lxor.
Qed.

Lemma lor_tag (x tag n : Z) :
  0 <= n -> 0 <= x < 2 ^ n -> tag mod 2 ^ n = 0 -> Z.lor x tag = x + tag.
Proof.
  intros Hn Hx Ht.
  assert (E : tag = (tag / 2 ^ n) * 2 ^ n).
  { pose proof (Z.div_mod tag (2 ^ n)). lia. }
  rewrite E at 1. rewrite Z.lor_comm, lor_add by assumption. lia.
Qed.

Lemma land_low (x n : Z) : 0 <= n -> Z.land x (2 ^ n - 1) = x mod 2 ^ n.
Proof.
  intros Hn. rewrite <- Z.land_ones by assumption.
  now rewrite Z.ones_equiv, Z.sub_1_r.
Qed.

Lemma land_fc00 (c : Z) :
  0 <= c < 65536 -> Z.land c 0xfc00 = c / 1024 * 1024.
Proof.
  intros Hc.
  assert (E : Z.land c 0xfc00 = Z.ldiff c (Z.ones 10)).
  { apply Z.bits_inj'. intros i Hi.
    rewrite Z.land_spec, Z.ldiff_spec.
    destruct (Z.lt_ge_cases i 16).
    - assert (Hcases : i = 0 \/ i = 1 \/ i = 2 \/ i = 3 \/ i = 4 \/ i = 5 \/
                       i = 6 \/ i = 7 \/ i = 8 \/ i = 9 \/ i = 10 \/ i = 11 \/
                       i = 12 \/ i = 13 \/ i = 14 \/ i = 15) by lia.
      repeat (destruct Hcases as [-> | Hcases]; [reflexivity|]).
      subst; reflexivity.
    - rewrite <- (Z.mod_small c (2 ^ 16)) by (simpl; lia).
      rewrite (Z.mod_pow2_bits_high c 16 i) by lia. reflexivity. }
  rewrite E, Z.ldiff_ones_r, Z.shiftr_div_pow2, Z.shiftl_mul_pow2 by lia.
  reflexivity.
Qed.

Lemma land_3ff x : Z.land x 0x3ff = x mod 1024.
Proof. exact (land_low x 10 ltac:(lia)). Qed.

Lemma land_3f x : Z.land x 0x3f = x mod 64.
Proof. exact (land_low x 6 ltac:(lia)). Qed.

Lemma land_1f x : Z.land x 0x1f = x mod 32.
Proof. exact (land_low x 5 ltac:(lia)). Qed.

Lemma land_0f x : Z.land x 0xf = x mod 16.
Proof. exact (land_low x 4 ltac:(lia)). Qed.

Lemma land_07 x : Z.land x 0x7 = x mod 8.
Proof. exact (land_low x 3 ltac:(lia)). Qed.

Lemma shiftr_4 x : Z.shiftr x 4 = x / 16.
Proof. exact (Z.shiftr_div_pow2 x 4 ltac:(lia)). Qed.

Lemma shiftr_6 x : Z.shiftr x 6 = x / 64.
Proof. exact (Z.shiftr_div_pow2 x 6 ltac:(lia)). Qed.

Lemma shiftr_10 x : Z.shiftr x 10 = x / 1024.
Proof. exact (Z.shiftr_div_pow2 x 10 ltac:(lia)). Qed.

Lemma shiftr_12 x : Z.shiftr x 12 = x / 4096.
Proof. exact (Z.shiftr_div_pow2 x 12 ltac:(lia)). Qed.

Lemma shiftr_18 x : Z.shiftr x 18 = x / 262144.
Proof. exact (Z.shiftr_div_pow2 x 18 ltac:(lia)). Qed.

Lemma shiftl_6 x : Z.shiftl x 6 = x * 64.
Proof. exact (Z.shiftl_mul_pow2 x 6 ltac:(lia)). Qed.

Lemma shiftl_10 x : Z.shiftl x 10 = x * 1024.
Proof. exact (Z.shiftl_mul_pow2 x 10 ltac:(lia)). Qed.

Lemma lor_80 x : 0 <= x < 64 -> Z.lor x 0x80 = x + 128.
Proof. intros H. now apply (lor_tag x 128 6). Qed.

Lemma lor_c0 x : 0 <= x < 32 -> Z.lor x 0xc0 = x + 192.
Proof. intros H. now apply (lor_tag x 192 5). Qed.

Lemma lor_e0 x : 0 <= x < 16 -> Z.lor x 0xe0 = x + 224.
Proof. intros H. now apply (lor_tag x 224 4). Qed.

Lemma lor_f0 x : 0 <= x < 8 -> Z.lor x 0xf0 = x + 240.
Proof. intros H. now apply (lor_tag x 240 3). Qed.

(** [(cp << 6) | low] in the decoder. *)
Lemma lor_shift6 cp low : 0 <= low < 64 -> Z.lor (cp * 64) low = cp * 64 + low.
Proof. intros H. now apply (lor_add cp low 6). Qed.

End BitFacts.

Ltac decide_tests :=
  repeat match goal with
         | |- context [?a <=? ?b] => destruct (Z.leb_spec a b); try lia
         | |- context [?a <? ?b] => destruct (Z.ltb_spec a b); try lia
         | |- context [?a =? ?b] => destruct (Z.eqb_spec a b); try lia
         end; simpl.

Ltac euclid := Z.to_euclidean_division_equations; lia.

(** ** [TextDecoder] after [toUtf8Bytes] *)

Module Utf8Facts.
Import Utf8 BitFacts.

Lemma handler_ascii b :
  0 <= b <= 0x7F -> handler initial b = ([b], initial).
Proof. intros H. unfold handler, handleLead; simpl. now decide_tests. Qed.

Lemma handler_lead2 b :
  0xC2 <= b <= 0xDF ->
  handler initial b = ([], mkDecoder (b mod 32) 0 1 0x80 0xBF).
Proof.
  intros H. unfold handler, handleLead; simpl. decide_tests.
  now rewrite land_1f.
Qed.

Lemma handler_lead3 b :
  0xE0 <= b <= 0xEF ->
  handler initial b
  = ([], mkDecoder (b mod 16) 0 2
           (if b =? 0xE0 then 0xA0 else 0x80)
           (if b =? 0xED then 0x9F else 0xBF)).
Proof.
  intros H. unfold handler, handleLead; simpl.
  rewrite land_0f.
  destruct (Z.leb_spec 0 b), (Z.leb_spec b 0x7F), (Z.leb_spec 0xC2 b),
    (Z.leb_spec b 0xDF), (Z.leb_spec 0xE0 b), (Z.leb_spec b 0xEF);
    try lia; reflexivity.
Qed.

Lemma handler_lead4 b :
  0xF0 <= b <= 0xF4 ->
  handler initial b
  = ([], mkDecoder (b mod 8) 0 3
           (if b =? 0xF0 then 0x90 else 0x80)
           (if b =? 0xF4 then 0x8F else 0xBF)).
Proof.
  intros H. unfold handler, handleLead; simpl.
  rewrite land_07.
  destruct (Z.leb_spec 0 b), (Z.leb_spec b 0x7F), (Z.leb_spec 0xC2 b),
    (Z.leb_spec b 0xDF), (Z.leb_spec 0xE0 b), (Z.leb_spec b 0xEF),
    (Z.leb_spec 0xF0 b), (Z.leb_spec b 0xF4);
    try lia; reflexivity.
Qed.

(** A continuation byte inside the expected range. *)
Lemma handler_continue cp seen needed lo hi b :
  needed <> 0 -> lo <= b <= hi ->
  handler (mkDecoder cp seen needed lo hi) b
  = if seen + 1 =? needed then ([cp * 64 + b mod 64], initial)
    else ([], mkDecoder (cp * 64 + b mod 64) (seen + 1) needed 0x80 0xBF).
Proof.
  intros Hn Hb. unfold handler.
  cbn [bytesNeeded bytesSeen codePoint lowerBoundary upperBoundary].
  destruct (Z.eqb_spec needed 0); [contradiction|].
  destruct (Z.leb_spec lo b), (Z.leb_spec b hi); try lia.
  cbn [andb negb].
  rewrite shiftl_6, land_3f, lor_shift6 by euclid. reflexivity.
Qed.

Lemma run_cons st b rest :
  run st (b :: rest) = fst (handler st b) ++ run (snd (handler st b)) rest.
Proof. simpl. now destruct (handler st b). Qed.

Lemma run_ascii c rest :
  0 <= c < 0x80 -> run initial (c :: rest) = c :: run initial rest.
Proof. intros H. now rewrite run_cons, handler_ascii by lia. Qed.

Lemma run_two c rest :
  0x80 <= c < 0x800 ->
  run initial (Z.lor (Z.shiftr c 6) 0xc0 :: Z.lor (Z.land c 0x3f) 0x80 :: rest)
  = c :: run initial rest.
Proof.
  intros H.
  rewrite shiftr_6, land_3f, lor_c0, lor_80 by euclid.
  rewrite run_cons, handler_lead2 by euclid. cbn [fst snd app].
  rewrite run_cons, handler_continue by (lia || euclid).
  cbn [fst snd app Z.eqb Z.add Pos.eqb]. f_equal. euclid.
Qed.

Lemma run_three c rest :
  0x800 <= c < 0x10000 -> ~ 0xD800 <= c <= 0xDFFF ->
  run initial (Z.lor (Z.shiftr c 12) 0xe0
               :: Z.lor (Z.land (Z.shiftr c 6) 0x3f) 0x80
               :: Z.lor (Z.land c 0x3f) 0x80 :: rest)
  = c :: run initial rest.
Proof.
  intros H Hs.
  rewrite shiftr_12, shiftr_6, !land_3f, lor_e0, !lor_80 by euclid.
  rewrite run_cons, handler_lead3 by euclid. cbn [fst snd app].
  rewrite run_cons, handler_continue;
    [ | lia | destruct (Z.eqb_spec (c / 4096 + 224) 0xE0),
                       (Z.eqb_spec (c / 4096 + 224) 0xED); euclid ].
  cbn [fst snd app Z.eqb Z.add Pos.eqb Pos.add].
  rewrite run_cons, handler_continue by (lia || euclid).
  cbn [fst snd app Z.eqb Z.add Pos.eqb Pos.add]. f_equal. euclid.
Qed.

Lemma run_four c c2 rest :
  0xD800 <= c <= 0xDBFF -> 0xDC00 <= c2 <= 0xDFFF ->
  let pair := 0x10000 + Z.shiftl (Z.land c 0x03ff) 10 + Z.land c2 0x03ff in
  run initial (Z.lor (Z.shiftr pair 18) 0xf0
               :: Z.lor (Z.land (Z.shiftr pair 12) 0x3f) 0x80
               :: Z.lor (Z.land (Z.shiftr pair 6) 0x3f) 0x80
               :: Z.lor (Z.land pair 0x3f) 0x80 :: rest)
  = 0x10000 + (c - 0xD800) * 1024 + (c2 - 0xDC00) :: run initial rest.
Proof.
  intros H H2 pair.
  assert (Hp : pair = 0x10000 + (c - 0xD800) * 1024 + (c2 - 0xDC00)).
  { unfold pair. rewrite !land_3ff, shiftl_10. euclid. }
  rewrite <- Hp.
  assert (Hr : 0x10000 <= pair <= 0x10FFFF) by lia.
  clearbody pair. clear Hp.
  rewrite shiftr_18, shiftr_12, shiftr_6, !land_3f, lor_f0, !lor_80 by euclid.
  rewrite run_cons, handler_lead4 by euclid. cbn [fst snd app].
  rewrite run_cons, handler_continue;
    [ | lia | destruct (Z.eqb_spec (pair / 262144 + 240) 0xF0),
                       (Z.eqb_spec (pair / 262144 + 240) 0xF4); euclid ].
  cbn [fst snd app Z.eqb Z.add Pos.eqb Pos.add].
  rewrite run_cons, handler_continue by (lia || euclid).
  cbn [fst snd app Z.eqb Z.add Pos.eqb Pos.add].
  rewrite run_cons, handler_continue by (lia || euclid).
  cbn [fst snd app Z.eqb Z.add Pos.eqb Pos.add]. f_equal. euclid.
Qed.

Lemma high_mask c :
  0 <= c < 65536 -> (Z.land c 0xfc00 =? 0xd800) = isHighSurrogate c.
Proof.
  intros H. rewrite land_fc00 by assumption. unfold isHighSurrogate.
  destruct (Z.eqb_spec (c / 1024 * 1024) 0xd800), (Z.leb_spec 0xD800 c),
    (Z.leb_spec c 0xDBFF); try reflexivity; euclid.
Qed.

Lemma low_mask c :
  0 <= c < 65536 -> (Z.land c 0xfc00 =? 0xdc00) = isLowSurrogate c.
Proof.
  intros H. rewrite land_fc00 by assumption. unfold isLowSurrogate.
  destruct (Z.eqb_spec (c / 1024 * 1024) 0xdc00), (Z.leb_spec 0xDC00 c),
    (Z.leb_spec c 0xDFFF); try reflexivity; euclid.
Qed.

Lemma isCodeUnit_range c : isCodeUnit c = true -> 0 <= c < 65536.
Proof. unfold isCodeUnit. lia. Qed.

Lemma codeUnits_pair c c2 :
  0xD800 <= c <= 0xDBFF -> 0xDC00 <= c2 <= 0xDFFF ->
  codeUnits (0x10000 + (c - 0xD800) * 1024 + (c2 - 0xDC00)) = [c; c2].
Proof.
  intros H H2. unfold codeUnits.
  destruct (Z.ltb_spec (0x10000 + (c - 0xD800) * 1024 + (c2 - 0xDC00)) 0x10000);
    [lia|].
  rewrite shiftr_10, land_3ff. f_equal; [|f_equal]; euclid.
Qed.

(** On a well-formed string [toUtf8Bytes] returns, and the decoder reads
    the bytes back as the code points of the string, ending in its
    initial state. *)
Lemma toUtf8Bytes_run : forall (n : nat) (s : jsstring),
  (List.length s <= n)%nat ->
  forallb isCodeUnit s = true -> isWellFormed s = true ->
  exists bs, toUtf8Bytes s = Some bs /\
    forall tail, run initial (bs ++ tail) = codePoints s ++ run initial tail.
Proof.
  induction n as [|n IH]; intros [|c rest] Hlen Hcu Hwf;
    try (simpl in Hlen; lia);
    try (exists []; split; [reflexivity | intros; reflexivity]).
  cbn [forallb] in Hcu. apply andb_true_iff in Hcu as [Hc Hrest].
  pose proof (isCodeUnit_range c Hc) as Hr.
  cbn [isWellFormed] in Hwf. cbn [codePoints toUtf8Bytes].
  rewrite (high_mask c Hr).
  destruct (isHighSurrogate c) eqn:Hhigh.
  - (* a surrogate pair *)
    destruct rest as [|c2 rest']; [discriminate|].
    apply andb_true_iff in Hwf as [Hlow Hwf].
    cbn [forallb] in Hrest. apply andb_true_iff in Hrest as [Hc2 Hrest].
    pose proof (isCodeUnit_range c2 Hc2) as Hr2.
    rewrite (low_mask c2 Hr2), Hlow.
    destruct (IH rest') as (bs & -> & Hrun); auto; [simpl in Hlen; lia|].
    unfold isHighSurrogate, isLowSurrogate in *.
    destruct (Z.ltb_spec c 0x80); [lia|].
    destruct (Z.ltb_spec c 0x800); [lia|].
    eexists; split; [reflexivity|]. intros tail.
    cbn [app]. rewrite <- Hrun. apply run_four; lia.
  - destruct (IH rest) as (bs & -> & Hrun); auto; [simpl in Hlen; lia| |].
    { now apply andb_true_iff in Hwf as [_ ?]. }
    apply andb_true_iff in Hwf as [Hlow _].
    unfold isHighSurrogate, isLowSurrogate in *.
    destruct (Z.ltb_spec c 0x80); [|destruct (Z.ltb_spec c 0x800)];
      (eexists; split; [reflexivity|]); intros tail;
      cbn [app]; rewrite <- Hrun.
    + apply run_ascii; lia.
    + apply run_two; lia.
    + apply run_three; lia.
Qed.

Lemma codeUnits_codePoints : forall (n : nat) (s : jsstring),
  (List.length s <= n)%nat ->
  forallb isCodeUnit s = true -> isWellFormed s = true ->
  flat_map codeUnits (codePoints s) = s.
Proof.
  induction n as [|n IH]; intros [|c rest] Hlen Hcu Hwf;
    try (simpl in Hlen; lia); try reflexivity.
  cbn [forallb] in Hcu. apply andb_true_iff in Hcu as [Hc Hrest].
  pose proof (isCodeUnit_range c Hc) as Hr.
  cbn [isWellFormed] in Hwf. cbn [codePoints].
  destruct (isHighSurrogate c) eqn:Hhigh.
  - destruct rest as [|c2 rest']; [discriminate|].
    apply andb_true_iff in Hwf as [Hlow Hwf]. rewrite Hlow.
    cbn [forallb] in Hrest. apply andb_true_iff in Hrest as [Hc2 Hrest].
    cbn [flat_map]. rewrite IH; auto; [|simpl in Hlen; lia].
    unfold isHighSurrogate, isLowSurrogate in *.
    rewrite codeUnits_pair by lia. reflexivity.
  - apply andb_true_iff in Hwf as [_ Hwf].
    cbn [flat_map]. rewrite IH; auto; [|simpl in Hlen; lia].
    unfold codeUnits. destruct (Z.ltb_spec c 0x10000); [reflexivity|lia].
Qed.

End Utf8Facts.

(** ** Hexadecimal strings read back *)

Module HexFacts.
Import Hex.

Lemma digit_range d : 0 <= d < 16 -> 48 <= digit d <= 57 \/ 97 <= digit d <= 102.
Proof. intros H. unfold digit. destruct (Z.ltb_spec d 10); lia. Qed.

Lemma digitValue_digit d : 0 <= d < 16 -> digitValue (digit d) = Some d.
Proof.
  intros H. unfold digit, digitValue.
  destruct (Z.ltb_spec d 10).
  - destruct (Z.leb_spec 48 (48 + d)), (Z.leb_spec (48 + d) 57); try lia.
    cbn [andb]. f_equal. lia.
  - destruct (Z.leb_spec 48 (87 + d)), (Z.leb_spec (87 + d) 57),
      (Z.leb_spec 97 (87 + d)), (Z.leb_spec (87 + d) 102); try lia;
      cbn [andb]; f_equal; lia.
Qed.

Lemma digit_not_terminator d : 0 <= d < 16 -> isLineTerminator (digit d) = false.
Proof.
  intros H. pose proof (digit_range d H). unfold isLineTerminator.
  destruct (Z.eqb_spec (digit d) 0x0A), (Z.eqb_spec (digit d) 0x0D),
    (Z.eqb_spec (digit d) 0x2028), (Z.eqb_spec (digit d) 0x2029);
    try reflexivity; lia.
Qed.

Lemma byteToHex_digits b :
  0 <= b < 256 -> byteToHex b = [digit (b / 16); digit (b mod 16)].
Proof.
  intros H. unfold byteToHex. destruct (Z.ltb_spec b 16); [|reflexivity].
  rewrite Z.div_small, Z.mod_small by lia. reflexivity.
Qed.

Lemma parseByte_digits b :
  0 <= b < 256 -> parseByte (digit (b / 16), digit (b mod 16)) = b.
Proof.
  intros H. unfold parseByte.
  rewrite !digitValue_digit by euclid.
  assert (Hx : (digit (b mod 16) =? 120) || (digit (b mod 16) =? 88) = false).
  { destruct (digit_range (b mod 16)) as [?|?]; [euclid| |];
      destruct (Z.eqb_spec (digit (b mod 16)) 120),
               (Z.eqb_spec (digit (b mod 16)) 88); try reflexivity; lia. }
  rewrite Hx, andb_false_r. euclid.
Qed.

Lemma matchPairs_bytes (bs : bytes) :
  Forall is_byte bs ->
  map parseByte (matchPairs (flat_map byteToHex bs)) = bs.
Proof.
  induction 1 as [|b bs Hb _ IH]; [reflexivity|].
  cbn [flat_map]. rewrite byteToHex_digits by assumption.
  cbn [app matchPairs].
  rewrite !digit_not_terminator by (unfold is_byte in Hb; euclid).
  cbn [orb map]. now rewrite parseByte_digits, IH.
Qed.

(** The page's own parsing reads back what its own printing wrote. *)
Lemma hexToBytes_bytesToHex (bs : bytes) :
  Forall is_byte bs -> hexToBytes (bytesToHex bs) = bs.
Proof. intros H. unfold hexToBytes, bytesToHex. now apply matchPairs_bytes. Qed.

Lemma parseDigitPairs_bytes (bs : bytes) :
  Forall is_byte bs -> parseDigitPairs (flat_map byteToHex bs) = Some bs.
Proof.
  induction 1 as [|b bs Hb _ IH]; [reflexivity|].
  cbn [flat_map]. rewrite byteToHex_digits by assumption.
  cbn [app parseDigitPairs].
  rewrite !digitValue_digit, IH by (unfold is_byte in Hb; euclid).
  f_equal. f_equal. euclid.
Qed.

(** ethers reads back the same bytes. *)
Lemma getBytes_bytesToHex (bs : bytes) :
  Forall is_byte bs -> getBytes (bytesToHex bs) = Some bs.
Proof. intros H. unfold getBytes, bytesToHex. simpl. now apply parseDigitPairs_bytes. Qed.

Lemma bytesToHex_empty (bs : bytes) :
  bytesToHex bs = js "0x" -> bs = [].
Proof.
  destruct bs as [|b bs]; [reflexivity|].
  unfold bytesToHex, byteToHex. cbn [flat_map].
  destruct (b <? 16); discriminate.
Qed.

End HexFacts.

(** ** Keys read back *)

Module KeyFacts.
Import Utf8 BitFacts Utf8Facts.

Lemma toUtf8Bytes_bytes : forall (n : nat) (s : jsstring) (bs : bytes),
  (List.length s <= n)%nat -> forallb isCodeUnit s = true ->
  toUtf8Bytes s = Some bs -> Forall is_byte bs.
Proof.
  induction n as [|n IH]; intros [|c rest] bs Hlen Hcu;
    try (simpl in Hlen; lia);
    try (cbn [toUtf8Bytes]; intros H; assert (bs = []) as -> by congruence;
         constructor).
  cbn [forallb] in Hcu. apply andb_true_iff in Hcu as [Hc Hrest].
  pose proof (isCodeUnit_range c Hc) as Hr.
  cbn [toUtf8Bytes]. rewrite (high_mask c Hr).
  destruct (Z.ltb_spec c 0x80); [|destruct (Z.ltb_spec c 0x800)].
  - destruct (toUtf8Bytes rest) as [r|] eqn:E; [|discriminate].
    intros [= <-]. constructor; [unfold is_byte; lia|].
    apply (IH rest); auto. simpl in Hlen; lia.
  - destruct (toUtf8Bytes rest) as [r|] eqn:E; [|discriminate].
    intros [= <-].
    rewrite shiftr_6, land_3f, lor_c0, lor_80 by euclid.
    repeat (constructor; [unfold is_byte; euclid|]).
    apply (IH rest); auto. simpl in Hlen; lia.
  - destruct (isHighSurrogate c) eqn:Hhigh.
    + destruct rest as [|c2 rest']; [discriminate|].
      cbn [forallb] in Hrest. apply andb_true_iff in Hrest as [Hc2 Hrest].
      pose proof (isCodeUnit_range c2 Hc2) as Hr2.
      rewrite (low_mask c2 Hr2).
      destruct (isLowSurrogate c2) eqn:Hlow; [|discriminate].
      destruct (toUtf8Bytes rest') as [r|] eqn:E; [|discriminate].
      cbn [option_map]. intros Heq.
      apply (f_equal (fun o => match o with Some x => x | None => [] end))
        in Heq.
      subst bs.
      unfold isHighSurrogate, isLowSurrogate in *.
      rewrite !land_3ff, shiftl_10.
      rewrite shiftr_18, shiftr_12, shiftr_6, !land_3f, lor_f0, !lor_80
        by euclid.
      repeat (constructor; [unfold is_byte; euclid|]).
      apply (IH rest'); auto. simpl in Hlen; lia.
    + destruct (toUtf8Bytes rest) as [r|] eqn:E; [|discriminate].
      intros [= <-].
      rewrite shiftr_12, shiftr_6, !land_3f, lor_e0, !lor_80 by euclid.
      repeat (constructor; [unfold is_byte; euclid|]).
      apply (IH rest); auto. simpl in Hlen; lia.
Qed.

Lemma run_zeros (k : nat) : run initial (repeat 0 k) = repeat 0 k.
Proof.
  induction k as [|k IH]; [reflexivity|].
  cbn [repeat]. rewrite run_ascii by lia. now rewrite IH.
Qed.

Lemma codeUnits_zeros (k : nat) : flat_map codeUnits (repeat 0 k) = repeat 0 k.
Proof. induction k as [|k IH]; [reflexivity|]. simpl. now rewrite IH. Qed.

Lemma removeNul_zeros (s : jsstring) (k : nat) :
  ~ In 0 s -> removeNul (s ++ repeat 0 k) = s.
Proof.
  intros H. unfold removeNul. rewrite filter_app.
  assert (Hz : filter (fun c => negb (c =? 0)) (repeat 0 k) = []).
  { induction k as [|k IH]; [reflexivity|]. simpl. exact IH. }
  rewrite Hz, app_nil_r.
  induction s as [|c s IH]; [reflexivity|].
  simpl. destruct (Z.eqb_spec c 0) as [->|Hc].
  - exfalso. apply H. now left.
  - simpl. f_equal. apply IH. intros Hin. apply H. now right.
Qed.

Lemma toBytes32_short (bs : bytes) :
  (List.length bs <= 32)%nat ->
  KeyCodec.toBytes32 bs = bs ++ repeat 0 (32 - List.length bs).
Proof.
  intros H. unfold KeyCodec.toBytes32.
  now rewrite firstn_all2 by assumption.
Qed.

Lemma toBytes32_length (bs : bytes) : List.length (KeyCodec.toBytes32 bs) = 32%nat.
Proof.
  unfold KeyCodec.toBytes32. rewrite length_app, repeat_length.
  pose proof (firstn_le_length 32 bs).
  rewrite length_firstn in *. lia.
Qed.

Lemma toBytes32_bytes (bs : bytes) :
  Forall is_byte bs -> Forall is_byte (KeyCodec.toBytes32 bs).
Proof.
  intros H. unfold KeyCodec.toBytes32. apply Forall_app. split.
  - rewrite <- (firstn_skipn 32 bs) in H. now apply Forall_app in H.
  - apply Forall_forall. intros x Hx. apply repeat_spec in Hx. subst.
    unfold is_byte. lia.
Qed.

(** The first code point is U+FEFF only if the first code unit is. *)
Lemma stripBOM_codePoints (s : jsstring) (tail : list Z) :
  hd 0 (s ++ tail) <> 0xFEFF ->
  stripBOM (codePoints s ++ tail) = codePoints s ++ tail.
Proof.
  destruct s as [|c rest]; cbn [codePoints app hd].
  - destruct tail as [|t tail]; [reflexivity|]. cbn [hd stripBOM].
    intros H. now destruct (Z.eqb_spec t 0xFEFF).
  - intros H. unfold isHighSurrogate, isLowSurrogate.
    destruct (Z.leb_spec 0xD800 c), (Z.leb_spec c 0xDBFF); cbn [andb];
      try (cbn [app stripBOM]; now destruct (Z.eqb_spec c 0xFEFF)).
    destruct rest as [|c2 rest'];
      [cbn [app stripBOM]; now destruct (Z.eqb_spec c 0xFEFF)|].
    destruct (Z.leb_spec 0xDC00 c2), (Z.leb_spec c2 0xDFFF); cbn [andb];
      try (cbn [app stripBOM]; now destruct (Z.eqb_spec c 0xFEFF)).
    cbn [app stripBOM].
    destruct (Z.eqb_spec (0x10000 + (c - 0xD800) * 1024 + (c2 - 0xDC00)) 0xFEFF);
      [lia|reflexivity].
Qed.

(** Decoding the zero-padded UTF-8 bytes of a well-formed string. *)
Lemma decode_padded (s : jsstring) (bs : bytes) (k : nat) :
  forallb isCodeUnit s = true -> isWellFormed s = true ->
  toUtf8Bytes s = Some bs -> hd 0 s <> 0xFEFF ->
  decode (bs ++ repeat 0 k) = s ++ repeat 0 k.
Proof.
  intros Hcu Hwf Hbs Hbom.
  destruct (toUtf8Bytes_run (List.length s) s) as (bs' & E & Hrun); auto.
  rewrite Hbs in E. injection E as <-.
  unfold decode. rewrite Hrun, run_zeros.
  rewrite stripBOM_codePoints.
  - rewrite flat_map_app, codeUnits_zeros.
    now rewrite (codeUnits_codePoints (List.length s)).
  - destruct s; [destruct k; simpl; lia | exact Hbom].
Qed.

(** The shared lemma behind the round trip of names and labels. *)
Lemma nameStr_bytes32Hex (s : jsstring) (bs : bytes) :
  forallb isCodeUnit s = true -> isWellFormed s = true ->
  toUtf8Bytes s = Some bs -> (List.length bs <= 32)%nat ->
  ~ In 0 s -> hd 0 s <> 0xFEFF ->
  option_map HomePage.nameStr (KeyCodec.bytes32Hex s) = Some s.
Proof.
  intros Hcu Hwf Hbs Hlen Hnul Hbom.
  unfold KeyCodec.bytes32Hex, HomePage.nameStr. rewrite Hbs. cbn [option_map].
  f_equal.
  rewrite HexFacts.hexToBytes_bytesToHex
    by (apply toBytes32_bytes, (toUtf8Bytes_bytes (List.length s) s); auto).
  rewrite toBytes32_short by assumption.
  rewrite (decode_padded s bs) by assumption.
  now apply removeNul_zeros.
Qed.

End KeyFacts.

(** * The claims *)

(** ** Key codec *)

(** C3 (as amended). For every well-formed string [s] (no lone surrogate)
    whose UTF-8 encoding is at most 32 bytes, that contains no U+0000 and
    does not start with U+FEFF, decoding the 32-byte key produced by
    encoding [s] returns [s] exactly. *)
Theorem key_round_trip (s : jsstring) (bs : bytes) :
  forallb isCodeUnit s = true -> isWellFormed s = true ->
  Utf8.toUtf8Bytes s = Some bs -> (List.length bs <= 32)%nat ->
  ~ In 0 s -> hd 0 s <> 0xFEFF ->
  option_map HomePage.nameStr (Web3Service.nameHex s) = Some s.
Proof. apply KeyFacts.nameStr_bytes32Hex. Qed.

Lemma key_round_trip_witness :
  option_map HomePage.nameStr (Web3Service.nameHex (js "alice"))
  = Some (js "alice").
Proof.
  apply (key_round_trip (js "alice") (js "alice")).
  - reflexivity.
  - reflexivity.
  - reflexivity.
  - simpl; lia.
  - simpl; intros H; repeat (destruct H as [H|H]; [discriminate|]); exact H.
  - simpl; lia.
Defined.

(** C3 as stated fails on the one-character string U+0000: its UTF-8
    encoding is one byte, its key is the all-zero key, and the key
    decodes to the empty string. *)
Lemma key_round_trip_nul :
  Utf8.toUtf8Bytes [0] = Some [0] /\
  Web3Service.nameHex [0] = Some KeyCodec.zeroKey /\
  option_map HomePage.nameStr (Web3Service.nameHex [0]) <> Some [0].
Proof. repeat split. vm_compute. discriminate. Qed.

(** The other two restrictions are needed as well: a leading U+FEFF is
    dropped by the decoder, and a lone low surrogate is written as three
    bytes that decode to three U+FFFD. *)
Example key_round_trip_bom :
  option_map HomePage.nameStr (Web3Service.nameHex [0xFEFF; 97]) = Some [97].
Proof. vm_compute. reflexivity. Qed.

Example key_round_trip_lone_surrogate :
  option_map HomePage.nameStr (Web3Service.nameHex [0xDC00])
  = Some [0xFFFD; 0xFFFD; 0xFFFD]
  /\ Web3Service.nameHex [0xD800] = None.
Proof. split; vm_compute; reflexivity. Qed.

(** C8 (as amended). The key encoding keeps the case of a name: two
    names (well-formed, at most 32 bytes of UTF-8, without U+0000, not
    starting with U+FEFF) have the same key only if they are the same
    string. Lower case comes from the register form alone: a key is sent
    for a text typed there exactly when the wallet and the contracts are
    there and the lower-case form of the text is not empty and has a
    UTF-8 encoding, and it is the key of that lower-case form; for a
    text whose lower-case form is empty no key is sent. *)
Theorem key_keeps_case (toLowerCase : jsstring -> jsstring)
    (s t : jsstring) (bs bt : bytes) :
  forallb isCodeUnit s = true -> isWellFormed s = true ->
  Utf8.toUtf8Bytes s = Some bs -> (List.length bs <= 32)%nat ->
  ~ In 0 s -> hd 0 s <> 0xFEFF ->
  forallb isCodeUnit t = true -> isWellFormed t = true ->
  Utf8.toUtf8Bytes t = Some bt -> (List.length bt <= 32)%nat ->
  ~ In 0 t -> hd 0 t <> 0xFEFF ->
  (Web3Service.nameHex s = Web3Service.nameHex t -> s = t) /\
  (forall (walletClient contracts : bool) (key : jsstring),
      HomePage.registerNameHex toLowerCase walletClient contracts s
      = HomePage.KeySent key
      <-> walletClient = true /\ contracts = true /\
          toLowerCase s <> [] /\
          Web3Service.nameHex (toLowerCase s) = Some key) /\
  (toLowerCase s = [] ->
   forall walletClient contracts,
     HomePage.registerNameHex toLowerCase walletClient contracts s
     = HomePage.ErrorShown (js "Please enter a username")).
Proof.
  intros Hs1 Hs2 Hs3 Hs4 Hs5 Hs6 Ht1 Ht2 Ht3 Ht4 Ht5 Ht6.
  split; [|split].
  - intros E.
    pose proof (KeyFacts.nameStr_bytes32Hex s bs Hs1 Hs2 Hs3 Hs4 Hs5 Hs6) as Rs.
    pose proof (KeyFacts.nameStr_bytes32Hex t bt Ht1 Ht2 Ht3 Ht4 Ht5 Ht6) as Rt.
    unfold Web3Service.nameHex in E. rewrite E in Rs. congruence.
  - intros walletClient contracts key.
    unfold HomePage.registerNameHex, HomePage.checkAvailability,
      HomePage.onChangeRegisterUsername, Web3Service.nameHex.
    destruct (toLowerCase s) as [|c low] eqn:El; cbn [falsy].
    + split; [discriminate | intros (_ & _ & H & _); now destruct H].
    + destruct walletClient, contracts; cbn [negb];
        try (split; [discriminate | intros (Hw & Hc & _); discriminate]).
      destruct (KeyCodec.bytes32Hex (c :: low)) as [k|].
      * split.
        -- intros H. repeat split; try discriminate. congruence.
        -- intros (_ & _ & _ & H). congruence.
      * split; [discriminate | intros (_ & _ & _ & H); discriminate].
  - intros El walletClient contracts.
    unfold HomePage.registerNameHex, HomePage.checkAvailability,
      HomePage.onChangeRegisterUsername.
    now rewrite El.
Qed.

Lemma key_keeps_case_witness :
  (Web3Service.nameHex (js "Alice") = Web3Service.nameHex (js "alice") ->
   js "Alice" = js "alice") /\
  HomePage.registerNameHex (map Address.lowerUnit) true true (js "Alice")
  = HomePage.KeySent
      (js "0x616c696365000000000000000000000000000000000000000000000000000000").
Proof.
  destruct (key_keeps_case (map Address.lowerUnit) (js "Alice") (js "alice")
              (js "Alice") (js "alice")) as (H1 & H2 & _);
    try reflexivity; try (simpl; lia);
    try (simpl; intros H; repeat (destruct H as [H|H]; [discriminate|]);
         exact H).
  split; [exact H1|].
  apply H2. repeat split; try reflexivity. discriminate.
Defined.

(** C8 as stated fails: the keys of [Alice] and [alice] differ. *)
Lemma key_of_upper_case_differs :
  Web3Service.nameHex (js "Alice") <> Web3Service.nameHex (js "alice").
Proof. vm_compute. discriminate. Qed.

(** ** The reduction *)

Section Reduction.
Import RecordsPage ReduceFacts.

(** Text data written by the page reads back as the text. *)
Lemma decode_toUtf8Bytes (v : jsstring) (bs : bytes) :
  forallb isCodeUnit v = true -> isWellFormed v = true ->
  Utf8.toUtf8Bytes v = Some bs -> hd 0 v <> 0xFEFF ->
  Utf8.decode bs = v.
Proof.
  intros Hcu Hwf Hbs Hbom.
  pose proof (KeyFacts.decode_padded v bs 0 Hcu Hwf Hbs Hbom) as H.
  cbn [repeat] in H. now rewrite !app_nil_r in H.
Qed.

Lemma hasData_bytesToHex (bs : bytes) :
  hasData (Hex.bytesToHex bs) = negb (Nat.eqb (List.length bs) 0).
Proof.
  unfold hasData. destruct bs as [|b bs]; [reflexivity|].
  rewrite str_eqb_neq; [reflexivity|].
  intros H. apply HexFacts.bytesToHex_empty in H. discriminate.
Qed.

(** For a type that is not one of the three address types the decoded
    value is the UTF-8 text of the data, whatever the bytes. *)
Lemma decodeData_text (recordType : Z) (bs : bytes) :
  isAddressType recordType = false -> Forall is_byte bs ->
  decodeData recordType (Hex.bytesToHex bs) = Utf8.decode bs.
Proof.
  intros Ht Hb. unfold decodeData.
  rewrite hasData_bytesToHex, Ht.
  destruct bs as [|b bs]; [reflexivity|].
  cbn [List.length Nat.eqb negb].
  now rewrite HexFacts.hexToBytes_bytesToHex.
Qed.



(** [App-old.tsx] skips an event without data, so there the key keeps
    the entry it had. *)
Lemma legacy_skips_empty_data nameHex recordMap args :
  RecordsPage.hasData (args_data args) = false ->
  AppOld.processEvent nameHex recordMap (EventLog args) = recordMap.
Proof.
  unfold RecordsPage.hasData, AppOld.processEvent. intros H.
  destruct (negb (str_eqb (args_name args) nameHex)); [reflexivity|].
  destruct (falsy (args_data args)); [reflexivity|].
  destruct (str_eqb (args_data args) (js "0x")); [reflexivity|discriminate].
Qed.

(** C1 (as amended). On the records page, when the last event that
    writes a key has no data, the key is still present after the
    reduction, with that event's (empty) data and the empty string as
    decoded value; an event with data that writes the key still later
    replaces that entry by its own: its data and the value decoded from
    it, which is the text [b] when the data is the UTF-8 text [b] and
    the type is not an address type, and the address when the type is
    an address type and the coder accepts the data. The loop of
    [App-old.tsx] skips an event without data: there the reduction is
    what it is without that event. *)
Theorem tombstone_keeps_key (pre post : list LogEntry) (E : EventArgs) :
  hasData (args_data E) = false ->
  forallb (fun e => negb (writes (keyOf E) e)) post = true ->
  JsMap.get (keyOf E) (reduce (pre ++ EventLog E :: post))
  = Some (mkRecord (recordTypeOf E) (decodeLabel (args_label E))
            (args_data E) []) /\
  JsMap.has (keyOf E) (reduce (pre ++ EventLog E :: post)) = true /\
  (forall (E' : EventArgs) (post' : list LogEntry),
      keyOf E' = keyOf E -> hasData (args_data E') = true ->
      forallb (fun e => negb (writes (keyOf E) e)) post' = true ->
      let state' :=
        reduce (pre ++ EventLog E :: post ++ EventLog E' :: post') in
      JsMap.get (keyOf E) state' = Some (entryOf E') /\
      option_map data (JsMap.get (keyOf E) state') = Some (args_data E') /\
      (forall (b : jsstring) (bs : bytes),
          isAddressType (recordTypeOf E') = false ->
          forallb isCodeUnit b = true -> isWellFormed b = true ->
          Utf8.toUtf8Bytes b = Some bs -> hd 0 b <> 0xFEFF ->
          args_data E' = Hex.bytesToHex bs ->
          b <> [] /\
          option_map decodedValue (JsMap.get (keyOf E) state') = Some b) /\
      (forall (address : jsstring),
          isAddressType (recordTypeOf E') = true ->
          Abi.decodeAddress (args_data E') = Some address ->
          option_map decodedValue (JsMap.get (keyOf E) state')
          = Some address)) /\
  (forall (nameHex : jsstring),
      AppOld.reduce nameHex (pre ++ EventLog E :: post)
      = AppOld.reduce nameHex (pre ++ post)).
Proof.
  intros Hempty Hpost.
  assert (Hget : JsMap.get (keyOf E) (reduce (pre ++ EventLog E :: post))
                 = Some (mkRecord (recordTypeOf E)
                           (decodeLabel (args_label E)) (args_data E) [])).
  { rewrite get_last_writer by assumption.
    unfold entryOf, decodeData. now rewrite Hempty. }
  split; [exact Hget|]. split; [|split].
  - unfold JsMap.has. now rewrite Hget.
  - intros E' post' Hk Hdata Hpost' state'.
    assert (Hget' : JsMap.get (keyOf E) state' = Some (entryOf E')).
    { unfold state'. rewrite <- Hk in *.
      change (pre ++ EventLog E :: post ++ EventLog E' :: post')
        with (pre ++ (EventLog E :: post) ++ EventLog E' :: post').
      rewrite app_assoc. now apply get_last_writer. }
    rewrite Hget'. cbn [option_map entryOf data decodedValue].
    split; [reflexivity|]. split; [reflexivity|]. split.
    + intros b bs Haddr Hcu Hwf Hbs Hbom Hd. split.
      * intros ->. cbn [Utf8.toUtf8Bytes] in Hbs.
        assert (bs = []) as -> by congruence.
        rewrite Hd in Hdata. vm_compute in Hdata. discriminate.
      * f_equal. rewrite Hd, decodeData_text; auto.
        -- now apply decode_toUtf8Bytes.
        -- now apply (KeyFacts.toUtf8Bytes_bytes (List.length b) b).
    + intros address Haddr Hdec. f_equal.
      unfold decodeData. now rewrite Hdata, Haddr, Hdec.
  - intros nameHex. unfold AppOld.reduce.
    rewrite !fold_left_app. cbn [fold_left].
    now rewrite legacy_skips_empty_data.
Qed.

Lemma tombstone_keeps_key_witness :
  let E1 := mkArgs KeyCodec.zeroKey KeyCodec.zeroKey (JsBigInt RecordTypes.TYPE_TXT)
                   (js "0x61") in
  let E2 := mkArgs KeyCodec.zeroKey KeyCodec.zeroKey (JsBigInt RecordTypes.TYPE_TXT)
                   (js "0x") in
  let E3 := mkArgs KeyCodec.zeroKey KeyCodec.zeroKey (JsBigInt RecordTypes.TYPE_TXT)
                   (js "0x62") in
  JsMap.get (keyOf E2) (reduce ([EventLog E1] ++ EventLog E2 :: []))
  = Some (mkRecord RecordTypes.TYPE_TXT [] (js "0x") []) /\
  option_map decodedValue
    (JsMap.get (keyOf E2)
       (reduce ([EventLog E1] ++ EventLog E2 :: [] ++ EventLog E3 :: [])))
  = Some (js "b").
Proof.
  intros E1 E2 E3.
  destruct (tombstone_keeps_key [EventLog E1] [] E2 eq_refl eq_refl)
    as (H1 & _ & H3 & _).
  split; [exact H1|].
  destruct (H3 E3 [] eq_refl eq_refl eq_refl) as (_ & _ & Htext & _).
  apply (Htext (js "b") (js "b")); try reflexivity.
  simpl; lia.
Defined.

(** C1 as stated fails on the loop of [App-old.tsx]: after [a] then an
    event without data the key still shows [a], and an event without
    data alone leaves the key absent. *)
Lemma tombstone_skipped_by_old_loop :
  let name := KeyCodec.zeroKey in
  let E1 := mkArgs name KeyCodec.zeroKey (JsBigInt RecordTypes.TYPE_TXT)
                   (js "0x61") in
  let E2 := mkArgs name KeyCodec.zeroKey (JsBigInt RecordTypes.TYPE_TXT)
                   (js "0x") in
  let k := AppOld.recordKey (args_recordType E2) (args_label E2) in
  option_map decodedValue
    (JsMap.get k (AppOld.reduce name [EventLog E1; EventLog E2]))
  = Some (js "a") /\
  JsMap.has k (AppOld.reduce name [EventLog E2]) = false.
Proof. split; vm_compute; reflexivity. Qed.

(** C7. For a record type that is none of the three address types (in
    particular one outside every band of [recordTypes.ts]) the decoded
    value is the data read as UTF-8 text, exactly as for [TYPE_TXT]. *)
Theorem other_types_decode_as_text (recordType : Z) (bs : bytes) :
  recordType <> RecordTypes.TYPE_ETH_ADDRESS ->
  recordType <> RecordTypes.TYPE_BTC_ADDRESS ->
  recordType <> RecordTypes.TYPE_SOL_ADDRESS ->
  Forall is_byte bs ->
  decodeData recordType (Hex.bytesToHex bs) = Utf8.decode bs /\
  decodeData recordType (Hex.bytesToHex bs)
  = decodeData RecordTypes.TYPE_TXT (Hex.bytesToHex bs).
Proof.
  intros He Hb Hs Hbs.
  assert (Ht : isAddressType recordType = false).
  { unfold isAddressType.
    destruct (Z.eqb_spec recordType RecordTypes.TYPE_ETH_ADDRESS),
      (Z.eqb_spec recordType RecordTypes.TYPE_BTC_ADDRESS),
      (Z.eqb_spec recordType RecordTypes.TYPE_SOL_ADDRESS);
      try contradiction; reflexivity. }
  rewrite !decodeData_text; auto.
Qed.

Lemma other_types_decode_as_text_witness :
  decodeData 4660 (Hex.bytesToHex (js "QmTestCID123")) = js "QmTestCID123".
Proof.
  refine (proj1 (other_types_decode_as_text 4660 (js "QmTestCID123") _ _ _ _));
    try (unfold RecordTypes.TYPE_ETH_ADDRESS, RecordTypes.TYPE_BTC_ADDRESS,
           RecordTypes.TYPE_SOL_ADDRESS; lia).
  repeat constructor; unfold is_byte; simpl; lia.
Defined.

Lemma removeNul_no_nul (s : jsstring) : ~ In 0 (removeNul s).
Proof.
  unfold removeNul. intros H. apply filter_In in H as [_ H]. discriminate.
Qed.

Lemma decodeLabel_no_nul (labelHex : jsstring) : ~ In 0 (decodeLabel labelHex).
Proof.
  unfold decodeLabel.
  destruct (negb (falsy labelHex) && negb (str_eqb labelHex KeyCodec.zeroKey)).
  - apply removeNul_no_nul.
  - intros [].
Qed.

(** On a label made of ASCII bytes the decoding is the removal of every
    zero byte, wherever it stands. *)
Lemma decodeLabel_ascii (bs : bytes) :
  Forall (fun b => 0 <= b < 0x80) bs ->
  decodeLabel (Hex.bytesToHex bs) = filter (fun b => negb (b =? 0)) bs.
Proof.
  intros H.
  assert (Hbytes : Forall is_byte bs).
  { eapply Forall_impl; [|exact H]. unfold is_byte. simpl. lia. }
  assert (Hdec : Utf8.decode bs = bs).
  { unfold Utf8.decode.
    assert (Hrun : Utf8.run Utf8.initial bs = bs).
    { clear Hbytes. induction H as [|b bs Hb _ IH]; [reflexivity|].
      rewrite Utf8Facts.run_ascii by lia. now rewrite IH. }
    rewrite Hrun.
    assert (Hbom : Utf8.stripBOM bs = bs).
    { destruct H as [|b bs Hb _]; [reflexivity|]. cbn [Utf8.stripBOM].
      destruct (Z.eqb_spec b 0xFEFF); [lia|reflexivity]. }
    rewrite Hbom. clear Hrun Hbom Hbytes.
    induction H as [|b bs Hb _ IH]; [reflexivity|].
    cbn [flat_map]. rewrite IH. unfold Utf8.codeUnits.
    destruct (Z.ltb_spec b 0x10000); [reflexivity|lia]. }
  unfold decodeLabel.
  destruct (str_eqb (Hex.bytesToHex bs) KeyCodec.zeroKey) eqn:Ez.
  - apply str_eqb_eq in Ez.
    assert (Hz : Hex.hexToBytes (Hex.bytesToHex bs) = repeat 0 32)
      by (rewrite Ez; reflexivity).
    rewrite HexFacts.hexToBytes_bytesToHex in Hz by assumption.
    rewrite Hz. cbn. reflexivity.
  - cbn [negb andb]. unfold Hex.bytesToHex at 1. cbn [falsy js app].
    cbn [negb andb].
    rewrite HexFacts.hexToBytes_bytesToHex, Hdec by assumption. reflexivity.
Qed.

(** C10. The key of an entry stands for the pair of the record type and
    the decoded label, and a decoded label holds no U+0000. So two
    events of one record type whose labels decode to the same string,
    whatever their bytes, write the same entry: processing the second
    after the first leaves the map as if the first had not come, and
    after the reduction the entry is the one of the second (when no
    later event writes the key). *)
Theorem same_decoded_label_same_entry
    (pre mid post : list LogEntry) (m : JsMap.t RecordData)
    (E1 E2 : EventArgs) :
  0 <= recordTypeOf E1 -> 0 <= recordTypeOf E2 ->
  (keyOf E1 = keyOf E2 <->
   recordTypeOf E1 = recordTypeOf E2 /\
   decodeLabel (args_label E1) = decodeLabel (args_label E2)) /\
  ~ In 0 (decodeLabel (args_label E1)) /\
  (recordTypeOf E1 = recordTypeOf E2 ->
   decodeLabel (args_label E1) = decodeLabel (args_label E2) ->
   processEvent (processEvent m (EventLog E1)) (EventLog E2)
   = processEvent m (EventLog E2) /\
   (forallb (fun e => negb (writes (keyOf E2) e)) post = true ->
    JsMap.get (keyOf E1)
      (reduce (pre ++ EventLog E1 :: mid ++ EventLog E2 :: post))
    = Some (entryOf E2))).
Proof.
  intros H1 H2. split; [|split].
  - split.
    + intros Hk. now apply recordKey_inj in Hk.
    + intros [Ht Hl]. unfold keyOf. now rewrite Ht, Hl.
  - apply decodeLabel_no_nul.
  - intros Ht Hl.
    assert (Hk : keyOf E1 = keyOf E2) by (unfold keyOf; now rewrite Ht, Hl).
    split.
    + cbn [processEvent]. rewrite Hk. apply set_set.
    + intros Hpost. rewrite Hk.
      change (pre ++ EventLog E1 :: mid ++ EventLog E2 :: post)
        with (pre ++ (EventLog E1 :: mid) ++ EventLog E2 :: post).
      rewrite app_assoc. now apply get_last_writer.
Qed.

Lemma same_decoded_label_same_entry_witness :
  let E1 := mkArgs KeyCodec.zeroKey
              (Hex.bytesToHex (KeyCodec.toBytes32 [97; 0; 98]))
              (JsBigInt RecordTypes.TYPE_TXT) (js "0x31") in
  let E2 := mkArgs KeyCodec.zeroKey
              (Hex.bytesToHex (KeyCodec.toBytes32 [97; 98]))
              (JsBigInt RecordTypes.TYPE_TXT) (js "0x32") in
  args_label E1 <> args_label E2 /\
  JsMap.get (keyOf E1) (reduce [EventLog E1; EventLog E2])
  = Some (mkRecord RecordTypes.TYPE_TXT (js "ab") (js "0x32") (js "2")).
Proof.
  intros E1 E2. split; [vm_compute; discriminate|].
  refine (proj2 (proj2 (proj2
            (same_decoded_label_same_entry [] [] [] JsMap.empty E1 E2 _ _))
            eq_refl eq_refl) eq_refl);
    unfold E1, E2, recordTypeOf, RecordTypes.TYPE_TXT; simpl; lia.
Defined.

End Reduction.

(** ** Addresses through the ABI coder *)

Module AbiFacts.
Import Hex Address Abi.

Lemma hexDigit_range c : isHexDigit c = true -> 48 <= c <= 102.
Proof.
  unfold isHexDigit, digitValue.
  destruct (Z.leb_spec 48 c), (Z.leb_spec c 57), (Z.leb_spec 97 c),
    (Z.leb_spec c 102), (Z.leb_spec 65 c), (Z.leb_spec c 70);
    cbn [andb]; try discriminate; lia.
Qed.

Lemma hexDigit_cases c :
  isHexDigit c = true ->
  exists v, digitValue c = Some v /\ 0 <= v < 16 /\
            lowerUnit c = digit v /\
            digitValue (lowerUnit c) = Some v /\
            digitValue (upperUnit c) = Some v.
Proof.
  intros Hd. pose proof (hexDigit_range c Hd) as Hr.
  assert (Hk : exists k : nat, c = 48 + Z.of_nat k /\ (k < 55)%nat).
  { exists (Z.to_nat (c - 48)). lia. }
  destruct Hk as (k & -> & Hk). clear Hr.
  do 55 (destruct k as [|k];
         [ vm_compute in Hd; try discriminate Hd;
           eexists; vm_compute; repeat split; discriminate | ]).
  lia.
Qed.

Lemma lowerUnit_idem c : lowerUnit (lowerUnit c) = lowerUnit c.
Proof.
  unfold lowerUnit.
  destruct ((65 <=? c) && (c <=? 90)) eqn:E.
  - assert (E' : (65 <=? c + 32) && (c + 32 <=? 90) = false) by lia.
    now rewrite E'.
  - now rewrite E.
Qed.

Lemma lowerUnit_not_upper c :
  (65 <=? lowerUnit c) && (lowerUnit c <=? 70) = false.
Proof.
  unfold lowerUnit.
  destruct ((65 <=? c) && (c <=? 90)) eqn:E; lia.
Qed.

Lemma hexDigit_lower_upper c :
  isHexDigit c = true ->
  isHexDigit (lowerUnit c) = true /\ isHexDigit (upperUnit c) = true /\
  lowerUnit (upperUnit c) = lowerUnit c.
Proof.
  intros Hd. pose proof (hexDigit_range c Hd) as Hr.
  assert (Hk : exists k : nat, c = 48 + Z.of_nat k /\ (k < 55)%nat).
  { exists (Z.to_nat (c - 48)). lia. }
  destruct Hk as (k & -> & Hk). clear Hr.
  do 55 (destruct k as [|k];
         [ vm_compute in Hd; try discriminate Hd;
           vm_compute; repeat split | ]).
  lia.
Qed.

(** The value of a digit string, one digit more. *)
Lemma hexToInteger_snoc ds c :
  hexToInteger (ds ++ [c])
  = 16 * hexToInteger ds
    + match digitValue c with Some v => v | None => 0 end.
Proof. unfold hexToInteger. now rewrite fold_left_app. Qed.

Lemma hexToInteger_bound ds :
  forallb isHexDigit ds = true ->
  0 <= hexToInteger ds < 16 ^ Z.of_nat (List.length ds).
Proof.
  induction ds as [|c ds IH] using rev_ind;
    [intros _; change (0 <= 0 < 1); lia|].
  rewrite forallb_app. cbn [forallb]. rewrite andb_true_r, andb_true_iff.
  intros [Hds Hc]. specialize (IH Hds).
  destruct (hexDigit_cases c Hc) as (v & Ev & Hv & _).
  rewrite hexToInteger_snoc, Ev, length_app. cbn [List.length].
  replace (Z.of_nat (List.length ds + 1)) with (Z.succ (Z.of_nat (List.length ds)))
    by lia.
  rewrite Z.pow_succ_r by lia. lia.
Qed.

(** Printing the value of a digit string gives back its lower-case form. *)
Lemma hexDigits_hexToInteger ds :
  forallb isHexDigit ds = true ->
  hexDigits (List.length ds) (hexToInteger ds) = map lowerUnit ds.
Proof.
  induction ds as [|c ds IH] using rev_ind; [reflexivity|].
  rewrite forallb_app. cbn [forallb]. rewrite andb_true_r, andb_true_iff.
  intros [Hds Hc]. specialize (IH Hds).
  destruct (hexDigit_cases c Hc) as (v & Ev & Hv & Hl & _).
  rewrite hexToInteger_snoc, Ev, length_app, map_app. cbn [List.length map].
  rewrite Nat.add_1_r. cbn [hexDigits].
  replace ((16 * hexToInteger ds + v) / 16) with (hexToInteger ds) by euclid.
  replace ((16 * hexToInteger ds + v) mod 16) with v by euclid.
  now rewrite IH, Hl.
Qed.

Lemma fromBigEndian_snoc bs b :
  fromBigEndian (bs ++ [b]) = 256 * fromBigEndian bs + b.
Proof. unfold fromBigEndian. now rewrite fold_left_app. Qed.

Lemma fromBigEndian_toBigEndian : forall (n : nat) (x : Z),
  0 <= x < 256 ^ Z.of_nat n -> fromBigEndian (toBigEndian n x) = x.
Proof.
  induction n as [|n IH]; intros x Hx.
  - change (0 <= x < 1) in Hx. assert (x = 0) as -> by lia. reflexivity.
  - cbn [toBigEndian]. rewrite fromBigEndian_snoc, IH; [euclid|].
    replace (Z.of_nat (S n)) with (Z.succ (Z.of_nat n)) in Hx by lia.
    rewrite Z.pow_succ_r in Hx by lia. euclid.
Qed.

Lemma toBigEndian_length : forall (n : nat) (x : Z),
  List.length (toBigEndian n x) = n.
Proof.
  induction n as [|n IH]; intros x; [reflexivity|].
  cbn [toBigEndian]. rewrite length_app, IH. simpl. lia.
Qed.

Lemma toBigEndian_bytes : forall (n : nat) (x : Z),
  Forall is_byte (toBigEndian n x).
Proof.
  induction n as [|n IH]; intros x; [constructor|].
  cbn [toBigEndian]. apply Forall_app. split; [apply IH|].
  constructor; [|constructor]. unfold is_byte. euclid.
Qed.

(** The case loop changes no digit value and is undone by lower-casing. *)
Lemma applyCase_facts : forall (hashed : bytes) (chars : jsstring),
  forallb isHexDigit chars = true ->
  forallb isHexDigit (applyCase hashed chars) = true /\
  map lowerUnit (applyCase hashed chars) = map lowerUnit chars /\
  List.length (applyCase hashed chars) = List.length chars /\
  forall acc,
    fold_left
      (fun a c => 16 * a + match digitValue c with Some v => v | None => 0 end)
      (applyCase hashed chars) acc
    = fold_left
        (fun a c => 16 * a + match digitValue c with Some v => v | None => 0 end)
        chars acc.
Proof.
  induction hashed as [|h hashed IH]; intros chars Hd.
  - destruct chars; simpl; auto.
  - destruct chars as [|c1 [|c2 cs]]; cbn [applyCase]; auto.
    cbn [forallb] in Hd.
    apply andb_true_iff in Hd as [H1 Hd]. apply andb_true_iff in Hd as [H2 Hd].
    destruct (IH cs Hd) as (Ia & Ib & Ic & Id).
    destruct (hexDigit_lower_upper c1 H1) as (_ & U1 & L1).
    destruct (hexDigit_lower_upper c2 H2) as (_ & U2 & L2).
    destruct (hexDigit_cases c1 H1) as (v1 & E1 & _ & _ & _ & V1).
    destruct (hexDigit_cases c2 H2) as (v2 & E2 & _ & _ & _ & V2).
    destruct (8 <=? Z.shiftr h 4), (8 <=? Z.land h 0x0f);
      cbn [forallb map List.length fold_left];
      rewrite ?U1, ?U2, ?H1, ?H2, ?L1, ?L2, ?V1, ?V2, ?E1, ?E2, Ia, Ib, Ic;
      repeat split; auto.
Qed.

Lemma fortyDigits_spec s :
  fortyDigits s = true ->
  List.length s = 40%nat /\ forallb isHexDigit s = true.
Proof.
  unfold fortyDigits. rewrite andb_true_iff, Nat.eqb_eq. tauto.
Qed.

Lemma startsWith0x_spec s :
  startsWith0x s = true -> exists body, s = 48 :: 120 :: body.
Proof.
  destruct s as [|a [|b body]]; try discriminate.
  unfold startsWith0x. rewrite andb_true_iff, !Z.eqb_eq.
  intros [-> ->]. now exists body.
Qed.

Lemma fortyDigits_no_prefix s : startsWith0x s = true -> fortyDigits s = false.
Proof.
  intros H. apply startsWith0x_spec in H as [body ->].
  unfold fortyDigits. cbn [forallb].
  change (isHexDigit 48) with true. change (isHexDigit 120) with false.
  cbn [andb]. apply andb_false_r.
Qed.

(** What [getAddress] returns on what it accepts. *)
Lemma getAddress_shape v a :
  getAddress v = Some a ->
  exists body, fortyDigits body = true /\
               a = getChecksumAddress (js "0x" ++ body).
Proof.
  unfold getAddress, matchesHexAddress.
  destruct (startsWith0x v) eqn:Ep.
  - rewrite (fortyDigits_no_prefix v Ep). cbn [orb andb].
    destruct (fortyDigits (skipn 2 v)) eqn:Ed; [|discriminate].
    apply startsWith0x_spec in Ep as [body ->].
    destruct (mixedCase _ && _); [discriminate|].
    intros [= <-]. exists body. split; [exact Ed|reflexivity].
  - cbn [andb]. rewrite orb_false_r.
    destruct (fortyDigits v) eqn:Ed; [|discriminate].
    destruct (mixedCase _ && _); [discriminate|].
    intros [= <-]. exists v. split; [exact Ed|reflexivity].
Qed.

Lemma checksum_lower body :
  getChecksumAddress (js "0x" ++ body)
  = js "0x"
    ++ applyCase
         (firstn 20 (Keccak.keccak256 (firstn 40 (map lowerUnit body))))
         (map lowerUnit body).
Proof. unfold getChecksumAddress. rewrite map_app. reflexivity. Qed.

(** The checksum form depends on the digits only, not on their case. *)
Lemma checksum_case_blind body body' :
  map lowerUnit body = map lowerUnit body' ->
  getChecksumAddress (js "0x" ++ body) = getChecksumAddress (js "0x" ++ body').
Proof. intros H. now rewrite !checksum_lower, H. Qed.

Lemma lower_digits body :
  forallb isHexDigit body = true ->
  forallb isHexDigit (map lowerUnit body) = true.
Proof.
  induction body as [|c body IH]; [reflexivity|].
  cbn [forallb map]. rewrite !andb_true_iff. intros [Hc Hb].
  split; [apply (hexDigit_lower_upper c Hc) | auto].
Qed.

Lemma map_lower_idem body :
  map lowerUnit (map lowerUnit body) = map lowerUnit body.
Proof.
  rewrite map_map. apply map_ext. intros c. apply lowerUnit_idem.
Qed.

Lemma checksum_facts body :
  fortyDigits body = true ->
  exists A, getChecksumAddress (js "0x" ++ body) = js "0x" ++ A /\
            fortyDigits A = true /\
            map lowerUnit A = map lowerUnit body /\
            hexToInteger A = hexToInteger (map lowerUnit body).
Proof.
  intros Hd. apply fortyDigits_spec in Hd as [Hlen Hdig].
  rewrite checksum_lower.
  set (hashed := firstn 20 _). clearbody hashed.
  destruct (applyCase_facts hashed (map lowerUnit body) (lower_digits body Hdig))
    as (Fa & Fb & Fc & Fd).
  eexists. split; [reflexivity|]. repeat split.
  - unfold fortyDigits. rewrite Fa, Fc, length_map, Hlen. reflexivity.
  - now rewrite Fb, map_lower_idem.
  - unfold hexToInteger. apply Fd.
Qed.

Lemma mixedCase_lower body : mixedCase (js "0x" ++ map lowerUnit body) = false.
Proof.
  unfold mixedCase.
  assert (H : existsb (fun c => (65 <=? c) && (c <=? 70))
                (js "0x" ++ map lowerUnit body) = false).
  { rewrite existsb_app. change (existsb _ (js "0x")) with false.
    cbn [orb]. induction body as [|c body IH]; [reflexivity|].
    cbn [map existsb]. now rewrite lowerUnit_not_upper, IH. }
  now rewrite H.
Qed.

(** A lower-case address is accepted and put in checksum form. *)
Lemma getAddress_lower body :
  fortyDigits body = true ->
  getAddress (js "0x" ++ map lowerUnit body)
  = Some (getChecksumAddress (js "0x" ++ body)).
Proof.
  intros Hd. pose proof (fortyDigits_spec body Hd) as [Hlen Hdig].
  unfold getAddress, matchesHexAddress.
  assert (Hf : fortyDigits (map lowerUnit body) = true).
  { unfold fortyDigits. now rewrite lower_digits, length_map, Hlen. }
  change (startsWith0x (js "0x" ++ map lowerUnit body)) with true.
  change (skipn 2 (js "0x" ++ map lowerUnit body)) with (map lowerUnit body).
  rewrite Hf, orb_true_r, mixedCase_lower. cbn [andb].
  f_equal. apply checksum_case_blind, map_lower_idem.
Qed.

Lemma digit_lower d :
  0 <= d < 16 ->
  isHexDigit (Hex.digit d) = true /\ lowerUnit (Hex.digit d) = Hex.digit d.
Proof.
  intros H. split.
  - unfold isHexDigit. now rewrite HexFacts.digitValue_digit.
  - pose proof (HexFacts.digit_range d H). unfold lowerUnit.
    destruct ((65 <=? Hex.digit d) && (Hex.digit d <=? 90)) eqn:E;
      [lia|reflexivity].
Qed.

Lemma hexDigits_lower : forall (n : nat) (x : Z),
  List.length (hexDigits n x) = n /\
  forallb isHexDigit (hexDigits n x) = true /\
  map lowerUnit (hexDigits n x) = hexDigits n x.
Proof.
  induction n as [|n IH]; intros x; [repeat split|].
  cbn [hexDigits]. destruct (IH (x / 16)) as (Il & Id & Im).
  destruct (digit_lower (x mod 16)) as [Dd Dl]; [euclid|].
  rewrite length_app, forallb_app, map_app, Il, Id, Im.
  cbn [List.length forallb map]. rewrite Dd, Dl.
  repeat split. lia.
Qed.

(** Data of at least one word whose first word fits 20 bytes is
    accepted, whatever follows the word. *)
Lemma decodeAddress_accepts (bs : bytes) :
  Forall is_byte bs -> (32 <= List.length bs)%nat ->
  fromBigEndian (firstn 32 bs) < 2 ^ 160 ->
  exists a, decodeAddress (Hex.bytesToHex bs) = Some a.
Proof.
  intros Hb Hlen Hv. unfold decodeAddress.
  rewrite HexFacts.getBytes_bytesToHex by assumption.
  destruct (Nat.ltb_spec (List.length bs) 32); [lia|].
  unfold toBeHex20.
  destruct (Z.ltb_spec (fromBigEndian (firstn 32 bs)) (2 ^ 160)); [|lia].
  destruct (hexDigits_lower 40 (fromBigEndian (firstn 32 bs)))
    as (Hl & Hd & Hm).
  rewrite <- Hm. eexists. apply getAddress_lower.
  unfold fortyDigits. now rewrite Hl, Hd.
Qed.

(** Decoding what the coder wrote for [v] gives the checksum form of
    [v], which [getAddress] leaves as it is. *)
Lemma decodeAddress_encodeAddress v a :
  getAddress v = Some a ->
  exists data, encodeAddress v = Some data /\
               decodeAddress data = Some a /\
               getAddress a = Some a /\
               data <> js "0x" /\ falsy data = false.
Proof.
  intros Hv.
  destruct (getAddress_shape v a Hv) as (body & Hd & Ha).
  destruct (checksum_facts body Hd) as (A & EA & HA & HlA & HvA).
  rewrite EA in Ha. subst a.
  pose proof (fortyDigits_spec body Hd) as [Hlen Hdig].
  pose proof (lower_digits body Hdig) as HL.
  pose proof (hexToInteger_bound (map lowerUnit body) HL) as Hb.
  rewrite length_map, Hlen in Hb.
  set (X := hexToInteger (map lowerUnit body)) in *.
  assert (Hlow : getAddress (js "0x" ++ map lowerUnit body)
                 = Some (js "0x" ++ A)).
  { rewrite <- EA. now apply getAddress_lower. }
  exists (Hex.bytesToHex (toBigEndian 32 X)). repeat split.
  - unfold encodeAddress. rewrite Hv.
    change (skipn 2 (js "0x" ++ A)) with A. now rewrite HvA.
  - unfold decodeAddress.
    rewrite HexFacts.getBytes_bytesToHex by apply toBigEndian_bytes.
    rewrite toBigEndian_length. change (32 <? 32)%nat with false.
    rewrite firstn_all2 by (rewrite toBigEndian_length; lia).
    rewrite fromBigEndian_toBigEndian
      by (change (256 ^ Z.of_nat 32) with (2 ^ 256);
          change (16 ^ Z.of_nat 40) with (2 ^ 160) in Hb;
          assert (2 ^ 160 < 2 ^ 256) by (apply Z.pow_lt_mono_r; lia); lia).
    unfold toBeHex20.
    destruct (Z.ltb_spec X (2 ^ 160));
      [|change (16 ^ Z.of_nat 40) with (2 ^ 160) in Hb; lia].
    replace (hexDigits 40 X) with (map lowerUnit body); [exact Hlow|].
    unfold X. rewrite <- map_lower_idem at 1.
    rewrite <- hexDigits_hexToInteger by assumption.
    now rewrite length_map, Hlen.
  - unfold getAddress, matchesHexAddress.
    change (startsWith0x (js "0x" ++ A)) with true.
    change (skipn 2 (js "0x" ++ A)) with A.
    rewrite HA, orb_true_r.
    assert (E : getChecksumAddress (js "0x" ++ A) = js "0x" ++ A).
    { rewrite <- EA at 2. now apply checksum_case_blind. }
    rewrite E, str_eqb_refl. cbn [negb]. now rewrite andb_false_r.
  - unfold Hex.bytesToHex. intros H.
    apply (f_equal (@List.length Z)) in H.
    rewrite length_app in H.
    rewrite (flat_map_constant_length (c := 2%nat)) in H.
    + rewrite toBigEndian_length in H. simpl in H. lia.
    + intros b _. unfold Hex.byteToHex. now destruct (b <? 16).
Qed.

(** Data shorter than one word, or whose first word does not fit 20
    bytes, is rejected by the coder. *)
Lemma decodeAddress_rejects (bs : bytes) :
  Forall is_byte bs ->
  (List.length bs < 32)%nat \/ 2 ^ 160 <= fromBigEndian (firstn 32 bs) ->
  decodeAddress (Hex.bytesToHex bs) = None.
Proof.
  intros Hb H. unfold decodeAddress.
  rewrite HexFacts.getBytes_bytesToHex by assumption.
  destruct (Nat.ltb_spec (List.length bs) 32); [reflexivity|].
  destruct H as [H|H]; [lia|].
  unfold toBeHex20.
  destruct (Z.ltb_spec (fromBigEndian (firstn 32 bs)) (2 ^ 160));
    [lia|reflexivity].
Qed.

End AbiFacts.

(** For byte data the coder rejects exactly the data that is too short
    or whose first word is too large. *)
Lemma decodeAddress_rejects_iff (bs : bytes) :
  Forall is_byte bs ->
  Abi.decodeAddress (Hex.bytesToHex bs) = None <->
  (List.length bs < 32)%nat \/ 2 ^ 160 <= Abi.fromBigEndian (firstn 32 bs).
Proof.
  intros Hb. split.
  - intros Hnone.
    destruct (Nat.lt_ge_cases (List.length bs) 32) as [|Hlen]; [now left|].
    destruct (Z.lt_ge_cases (Abi.fromBigEndian (firstn 32 bs)) (2 ^ 160))
      as [Hv|]; [|now right].
    destruct (AbiFacts.decodeAddress_accepts bs Hb Hlen Hv) as [a Ha].
    congruence.
  - now apply AbiFacts.decodeAddress_rejects.
Qed.

(** ** The value codecs of the page *)

Section ValueCodec.
Import RecordsPage.

(** C5 (as amended). For an address type and a string [v] that ethers
    accepts as a hexadecimal address (40 digits, with or without [0x],
    all of one case or with its checksum case), decoding the data
    produced by encoding [v] returns the checksum form [a] of [v]: the
    same 20 bytes, written with [0x] and the mixed case of the checksum.
    Encoding and decoding [a] itself returns [a] exactly. *)
Theorem address_round_trip (recordType : Z) (v a : jsstring) :
  isAddressType recordType = true ->
  Address.getAddress v = Some a ->
  (exists data, encodedData recordType v = Some data /\
                decodeData recordType data = a) /\
  (exists data, encodedData recordType a = Some data /\
                decodeData recordType data = a).
Proof.
  intros Ht Hv.
  destruct (AbiFacts.decodeAddress_encodeAddress v a Hv)
    as (data & He & Hd & Ha & Hne & Hf).
  split.
  - exists data. unfold encodedData, decodeData, hasData. rewrite Ht.
    split; [exact He|].
    now rewrite Hf, (str_eqb_neq _ _ Hne), Hd.
  - destruct (AbiFacts.decodeAddress_encodeAddress a a Ha)
      as (data' & He' & Hd' & _ & Hne' & Hf').
    exists data'. unfold encodedData, decodeData, hasData. rewrite Ht.
    split; [exact He'|].
    now rewrite Hf', (str_eqb_neq _ _ Hne'), Hd'.
Qed.

Lemma address_round_trip_witness :
  exists data,
    encodedData RecordTypes.TYPE_ETH_ADDRESS
      (js "0x5aAeb6053F3E94C9b9A09f33669435E7Ef1BeAed") = Some data /\
    decodeData RecordTypes.TYPE_ETH_ADDRESS data
    = js "0x5aAeb6053F3E94C9b9A09f33669435E7Ef1BeAed".
Proof.
  refine (proj2 (address_round_trip RecordTypes.TYPE_ETH_ADDRESS
                   (js "0x5aaeb6053f3e94c9b9a09f33669435e7ef1beaed")
                   (js "0x5aAeb6053F3E94C9b9A09f33669435E7Ef1BeAed") _ _)).
  - reflexivity.
  - vm_compute. reflexivity.
Defined.

(** C5 as stated fails on a lower-case address: it is encoded, and
    decoded to its checksum form, which is another string. *)
Lemma address_round_trip_changes_case :
  let v := js "0x5aaeb6053f3e94c9b9a09f33669435e7ef1beaed" in
  option_map (decodeData RecordTypes.TYPE_ETH_ADDRESS)
    (encodedData RecordTypes.TYPE_ETH_ADDRESS v)
  = Some (js "0x5aAeb6053F3E94C9b9A09f33669435E7Ef1BeAed") /\
  option_map (decodeData RecordTypes.TYPE_ETH_ADDRESS)
    (encodedData RecordTypes.TYPE_ETH_ADDRESS v) <> Some v.
Proof. split; vm_compute; [reflexivity | discriminate]. Qed.



(** Bytes after the first word are not looked at: such data is decoded,
    not shown raw. *)
Example trailing_bytes_ignored :
  decodeData RecordTypes.TYPE_ETH_ADDRESS
    (Hex.bytesToHex (repeat 0 12 ++ repeat 0x11 20 ++ repeat 0xFF 32))
  = js "0x1111111111111111111111111111111111111111".
Proof. vm_compute. reflexivity. Qed.

End ValueCodec.

(** ** Submitting a record *)

Section Submit.
Import RecordsPage Handler.

Lemma trimStart_nil (s : jsstring) :
  trimStart s = [] <-> forallb isStrWhiteSpaceChar s = true.
Proof.
  induction s as [|c s IH]; [simpl; tauto|].
  cbn [trimStart forallb].
  destruct (isStrWhiteSpaceChar c); cbn [andb]; [exact IH|].
  split; discriminate.
Qed.

Lemma trimStart_head (s : jsstring) c r :
  trimStart s = c :: r -> isStrWhiteSpaceChar c = false.
Proof.
  induction s as [|x s IH]; [discriminate|].
  cbn [trimStart]. destruct (isStrWhiteSpaceChar x) eqn:E; [exact IH|].
  intros [= -> _]. exact E.
Qed.

Lemma forallb_rev (f : Z -> bool) (l : list Z) :
  forallb f (rev l) = forallb f l.
Proof.
  induction l as [|x l IH]; [reflexivity|].
  cbn [rev forallb]. rewrite forallb_app, IH. cbn [forallb].
  rewrite andb_true_r. apply andb_comm.
Qed.

(** [!label || label.trim() === ''] holds exactly for a label made of
    white space only (the empty one included). *)
Lemma blank_label (label : jsstring) :
  falsy label || str_eqb (trim label) []
  = forallb isStrWhiteSpaceChar label.
Proof.
  destruct label as [|c label]; [reflexivity|].
  cbn [falsy orb]. unfold trim.
  destruct (forallb isStrWhiteSpaceChar (c :: label)) eqn:E.
  - apply trimStart_nil in E. rewrite E. reflexivity.
  - apply str_eqb_neq. intros H.
    apply (f_equal (@rev Z)) in H. rewrite rev_involutive in H.
    cbn [rev] in H. apply trimStart_nil in H. rewrite forallb_rev in H.
    destruct (trimStart (c :: label)) as [|x r] eqn:Et.
    + apply trimStart_nil in Et. congruence.
    + apply trimStart_head in Et. cbn [forallb] in H. now rewrite Et in H.
Qed.

Lemma bytesToHex_inj (a b : bytes) :
  Forall is_byte a -> Forall is_byte b ->
  Hex.bytesToHex a = Hex.bytesToHex b -> a = b.
Proof.
  intros Ha Hb H.
  rewrite <- (HexFacts.hexToBytes_bytesToHex a Ha),
          <- (HexFacts.hexToBytes_bytesToHex b Hb).
  now rewrite H.
Qed.

Lemma zeroKey_bytes : KeyCodec.zeroKey = Hex.bytesToHex (repeat 0 32).
Proof. reflexivity. Qed.

Lemma zeros_repeat (l : list Z) :
  Forall (fun b => b = 0) l <-> l = repeat 0 (List.length l).
Proof.
  induction l as [|x l IH]; [simpl; split; auto|].
  cbn [List.length repeat]. split.
  - intros H. inversion H; subst. f_equal. now apply IH.
  - intros [= -> Hl]. constructor; [reflexivity|]. now apply IH.
Qed.

Lemma toBytes32_zero (bs : bytes) :
  KeyCodec.toBytes32 bs = repeat 0 32
  <-> Forall (fun b => b = 0) (firstn 32 bs).
Proof.
  unfold KeyCodec.toBytes32.
  pose proof (firstn_le_length 32 bs) as Hlen.
  set (head := firstn 32 bs) in *. split.
  - intros H.
    assert (Hall : Forall (fun b => b = 0) (repeat 0 32)).
    { apply Forall_forall. intros x Hx. now apply repeat_spec in Hx. }
    rewrite <- H in Hall. now apply Forall_app in Hall.
  - intros H. apply zeros_repeat in H. rewrite H at 1.
    rewrite <- repeat_app. f_equal. lia.
Qed.

(** Every exception is caught inside [updateRecord]. *)
Lemma updateRecord_returns env recordType label value p :
  fst (updateRecord env recordType label value p) = Ok tt.
Proof.
  unfold updateRecord.
  destruct (noDomain env || falsy value || negb (walletClient env));
    [reflexivity|].
  unfold finally, tryCatch, modify.
  match goal with
  | |- context [bind ?m ?k p] => destruct (bind m k p) as [[[]|e] p']
  end; reflexivity.
Qed.

Lemma loadResolverData_submitted env p :
  submitted (snd (loadResolverData env p)) = submitted p.
Proof.
  unfold loadResolverData, finally, tryCatch, bind, modify, orThrow, ret, throw.
  destruct (noDomain env || negb (walletClient env)); [reflexivity|].
  destruct (negb (getResolverContract env)); [reflexivity|].
  destruct (KeyCodec.bytes32Hex (domain env)) as [nameHex|]; [|reflexivity].
  destruct (queryFilter env nameHex); reflexivity.
Qed.

(** [updateRecord] makes at most one call to [setRecord], with the
    arguments computed from its own. *)
Lemma updateRecord_submitted env recordType label value p :
  let p' := snd (updateRecord env recordType label value p) in
  submitted p' = submitted p \/
  exists nameHex lab dat,
    KeyCodec.bytes32Hex (domain env) = Some nameHex /\
    labelHex label = Some lab /\
    encodedData recordType value = Some dat /\
    falsy value = false /\
    submitted p' = submitted p ++ [mkCall nameHex recordType lab dat].
Proof.
  unfold updateRecord.
  destruct (noDomain env) eqn:Hdom; [left; reflexivity|].
  destruct (falsy value) eqn:Hval; [left; reflexivity|].
  destruct (negb (walletClient env)) eqn:Hw; [left; reflexivity|].
  cbn [orb].
  unfold finally, tryCatch, bind, modify, orThrow, ret, throw.
  destruct (negb (getResolverContract env)); [left; reflexivity|].
  destruct (KeyCodec.bytes32Hex (domain env)) as [nameHex|];
    [|left; reflexivity].
  destruct (labelHex label) as [lab|]; [|left; reflexivity].
  destruct (encodedData recordType value) as [dat|]; [|left; reflexivity].
  right. exists nameHex, lab, dat. repeat split.
  destruct (setRecord env _) as [tx|e]; [|reflexivity].
  destruct (wait env tx) as [[]|e]; [|reflexivity].
  match goal with
  | |- context [loadResolverData env ?q] =>
      pose proof (loadResolverData_submitted env q) as Hl;
      destruct (loadResolverData env q) as [[[]|e] q']
  end; exact Hl.
Qed.

(** C2 (as amended). [updateRecord] with an empty value returns at once:
    it throws nothing (there is no [InvalidValueError] in the code),
    leaves the whole state of the page as it was, the error message
    included, and makes no call to [setRecord]. *)
Theorem empty_value_is_ignored (env : Env) (recordType : Z)
    (label : jsstring) (p : Page) :
  updateRecord env recordType label [] p = (Ok tt, p) /\
  submitted (snd (updateRecord env recordType label [] p)) = submitted p /\
  error (snd (updateRecord env recordType label [] p)) = error p.
Proof.
  assert (H : updateRecord env recordType label [] p = (Ok tt, p)).
  { unfold updateRecord. cbn [falsy]. now rewrite orb_true_r. }
  now rewrite H.
Qed.

(** C2 as stated fails: with a name, a wallet and a ledger that accepts
    everything, submitting the empty value ends without any error. *)
Lemma empty_value_raises_nothing :
  let env := mkEnv (Some (js "alice")) true true
               (fun _ => Ok []) (fun _ => Ok (js "0xabc")) (fun _ => Ok tt) in
  let p := mkPage false NoError [] None [] RecordTypes.TYPE_A [] [] [] in
  fst (updateRecord env RecordTypes.TYPE_TXT [] [] p) = Ok tt /\
  (forall e, fst (updateRecord env RecordTypes.TYPE_TXT [] [] p) <> Throw e) /\
  error (snd (updateRecord env RecordTypes.TYPE_TXT [] [] p)) = NoError.
Proof. repeat split. intros e. discriminate. Qed.

(** With a value the same call reaches the ledger. *)
Example value_is_submitted :
  let env := mkEnv (Some (js "alice")) true true
               (fun _ => Ok []) (fun _ => Ok (js "0xabc")) (fun _ => Ok tt) in
  let p := mkPage false NoError [] None [] RecordTypes.TYPE_A [] [] [] in
  submitted (snd (updateRecord env RecordTypes.TYPE_TXT [] (js "v1") p))
  = [mkCall
       (js "0x616c696365000000000000000000000000000000000000000000000000000000")
       RecordTypes.TYPE_TXT KeyCodec.zeroKey (js "0x7631")].
Proof. vm_compute. reflexivity. Qed.

(** C9 (as amended). The label argument of the one call [updateRecord]
    may make is [labelHex label]. It is the all-zero key when the label
    is empty or made of white space only; otherwise it is the UTF-8
    encoding of the label (when the label has one), cut to 32 bytes and
    padded with zeros, which is the all-zero key exactly when those
    bytes are all zero (a label of U+0000 characters). *)
Theorem label_argument (env : Env) (recordType : Z)
    (label value : jsstring) (p : Page) (bs : bytes) :
  Utf8.toUtf8Bytes label = Some bs -> forallb isCodeUnit label = true ->
  let p' := snd (updateRecord env recordType label value p) in
  (submitted p' = submitted p \/
   exists call, submitted p' = submitted p ++ [call] /\
                labelHex label = Some (call_label call)) /\
  labelHex label
  = Some (if forallb isStrWhiteSpaceChar label then KeyCodec.zeroKey
          else Hex.bytesToHex (KeyCodec.toBytes32 bs)) /\
  (labelHex label = Some KeyCodec.zeroKey <->
   forallb isStrWhiteSpaceChar label = true \/
   Forall (fun b => b = 0) (firstn 32 bs)).
Proof.
  intros Hbs Hcu p'.
  assert (Hlab : labelHex label
                 = Some (if forallb isStrWhiteSpaceChar label
                         then KeyCodec.zeroKey
                         else Hex.bytesToHex (KeyCodec.toBytes32 bs))).
  { unfold labelHex. rewrite blank_label.
    destruct (forallb isStrWhiteSpaceChar label); [reflexivity|].
    unfold KeyCodec.bytes32Hex. now rewrite Hbs. }
  split; [|split].
  - destruct (updateRecord_submitted env recordType label value p)
      as [H | (nameHex & lab & dat & _ & Hl & _ & _ & H)].
    + now left.
    + right. exists (mkCall nameHex recordType lab dat). now split.
  - exact Hlab.
  - rewrite Hlab.
    assert (Hbytes : Forall is_byte bs)
      by now apply (KeyFacts.toUtf8Bytes_bytes (List.length label) label).
    destruct (forallb isStrWhiteSpaceChar label).
    + split; auto.
    + rewrite zeroKey_bytes. split.
      * intros H. right. apply toBytes32_zero.
        assert (H' : Hex.bytesToHex (KeyCodec.toBytes32 bs)
                     = Hex.bytesToHex (repeat 0 32)) by congruence.
        clear H. rename H' into H.
        apply bytesToHex_inj in H; auto.
        -- now apply KeyFacts.toBytes32_bytes.
        -- apply Forall_forall. intros x Hx. apply repeat_spec in Hx.
           subst. unfold is_byte. lia.
      * intros [H|H]; [discriminate|].
        apply toBytes32_zero in H. now rewrite H.
Qed.

Lemma label_argument_witness :
  labelHex (js "blog") = Some (Hex.bytesToHex (KeyCodec.toBytes32 (js "blog"))).
Proof.
  exact (proj1 (proj2
    (label_argument
       (mkEnv None false false (fun _ => Ok []) (fun _ => Ok []) (fun _ => Ok tt))
       RecordTypes.TYPE_TXT (js "blog") []
       (mkPage false NoError [] None [] RecordTypes.TYPE_A [] [] [])
       (js "blog") eq_refl eq_refl))).
Defined.

(** C9 as stated, with its "only if", fails on the label U+0000: it is
    neither empty nor white space, and its key is the all-zero key. *)
Lemma nul_label_gets_zero_key :
  falsy [0] = false /\ str_eqb (trim [0]) [] = false /\
  forallb isStrWhiteSpaceChar [0] = false /\
  labelHex [0] = Some KeyCodec.zeroKey.
Proof. repeat split. Qed.

(** A label read back from the key it was submitted under: itself,
    or the empty label when it was blank. *)
Lemma decodeLabel_labelHex (label : jsstring) (bs : bytes) :
  forallb isCodeUnit label = true -> isWellFormed label = true ->
  Utf8.toUtf8Bytes label = Some bs -> (List.length bs <= 32)%nat ->
  ~ In 0 label -> hd 0 label <> 0xFEFF ->
  option_map decodeLabel (labelHex label)
  = Some (if forallb isStrWhiteSpaceChar label then [] else label).
Proof.
  intros Hcu Hwf Hbs Hlen Hnul Hbom.
  unfold labelHex. rewrite blank_label.
  destruct (forallb isStrWhiteSpaceChar label) eqn:Hblank; [reflexivity|].
  pose proof (KeyFacts.nameStr_bytes32Hex label bs Hcu Hwf Hbs Hlen Hnul Hbom)
    as Hrt.
  destruct (KeyCodec.bytes32Hex label) as [hex|] eqn:Ehex; [|discriminate].
  cbn [option_map] in *. f_equal.
  assert (Hs : HomePage.nameStr hex = label) by congruence.
  unfold decodeLabel.
  destruct (str_eqb hex KeyCodec.zeroKey) eqn:Ez.
  - apply str_eqb_eq in Ez. subst hex.
    rewrite andb_false_r. rewrite <- Hs. reflexivity.
  - unfold KeyCodec.bytes32Hex in Ehex. rewrite Hbs in Ehex.
    cbn [option_map] in Ehex.
    assert (Hhex : hex = Hex.bytesToHex (KeyCodec.toBytes32 bs))
      by congruence.
    assert (Hf : falsy hex = false) by (rewrite Hhex; reflexivity).
    rewrite Hf. exact Hs.
Qed.

(** The scenarios of the specification, the ledger giving back each
    submitted call as one event. *)
Example scenario_content_hash :
  let env := mkEnv (Some (js "alice")) true true
               (fun _ => Ok []) (fun _ => Ok (js "0xabc")) (fun _ => Ok tt) in
  let p := mkPage false NoError [] None [] RecordTypes.TYPE_A [] [] [] in
  let p' := snd (updateRecord env RecordTypes.TYPE_CONTENT_HASH (js "blog")
                   (js "QmTestCID123") p) in
  let events :=
    map (fun c => EventLog (mkArgs (call_name c) (call_label c)
                              (JsBigInt (call_recordType c)) (call_data c)))
        (submitted p') in
  map (fun r => (label r, decodedValue r)) (JsMap.values (reduce events))
  = [(js "blog", js "QmTestCID123")].
Proof. vm_compute. reflexivity. Qed.

Example scenario_eth_address :
  let env := mkEnv (Some (js "alice")) true true
               (fun _ => Ok []) (fun _ => Ok (js "0xabc")) (fun _ => Ok tt) in
  let p := mkPage false NoError [] None [] RecordTypes.TYPE_A [] [] [] in
  let p' := snd (updateRecord env RecordTypes.TYPE_ETH_ADDRESS []
                   (js "0xfB6916095ca1df60bB79Ce92cE3Ea74c37c5d359") p) in
  let events :=
    map (fun c => EventLog (mkArgs (call_name c) (call_label c)
                              (JsBigInt (call_recordType c)) (call_data c)))
        (submitted p') in
  map (fun r => (label r, decodedValue r)) (JsMap.values (reduce events))
  = [([], js "0xfB6916095ca1df60bB79Ce92cE3Ea74c37c5d359")].
Proof. vm_compute. reflexivity. Qed.

Example scenario_two_submissions :
  let env := mkEnv (Some (js "alice")) true true
               (fun _ => Ok []) (fun _ => Ok (js "0xabc")) (fun _ => Ok tt) in
  let p := mkPage false NoError [] None [] RecordTypes.TYPE_A [] [] [] in
  let p1 := snd (updateRecord env RecordTypes.TYPE_TXT [] (js "v1") p) in
  let p2 := snd (updateRecord env RecordTypes.TYPE_TXT [] (js "v2") p1) in
  let events :=
    map (fun c => EventLog (mkArgs (call_name c) (call_label c)
                              (JsBigInt (call_recordType c)) (call_data c)))
        (submitted p2) in
  map (fun r => (label r, decodedValue r)) (JsMap.values (reduce events))
  = [([], js "v2")].
Proof. vm_compute. reflexivity. Qed.

End Submit.

(** ** The earlier version of the loop *)

Section Legacy.

Example legacy_keeps_stale_value :
  let name := KeyCodec.zeroKey in
  let E1 := mkArgs name KeyCodec.zeroKey (JsBigInt RecordTypes.TYPE_TXT)
                   (js "0x61") in
  let E2 := mkArgs name KeyCodec.zeroKey (JsBigInt RecordTypes.TYPE_TXT)
                   (js "0x") in
  option_map RecordsPage.decodedValue
    (JsMap.get (AppOld.recordKey (args_recordType E2) (args_label E2))
       (AppOld.reduce name [EventLog E1; EventLog E2]))
  = Some (js "a").
Proof. vm_compute. reflexivity. Qed.

(** The same fallback is written there, for a record type that arrives
    as a number; a bigint equals none of the constants and its data is
    read as text. *)
Lemma legacy_address_fallback (recordType : Z) (data : jsstring) :
  RecordsPage.isAddressType recordType = true ->
  Abi.decodeAddress data = None ->
  AppOld.decodedValue (JsNumber recordType) data = data.
Proof.
  unfold RecordsPage.isAddressType, AppOld.decodedValue, strictEqualsNumber.
  intros -> ->. reflexivity.
Qed.

Lemma legacy_bigint_is_text (recordType : Z) (data : jsstring) :
  AppOld.decodedValue (JsBigInt recordType) data
  = removeNul (Utf8.decode (Hex.hexToBytes data)).
Proof. reflexivity. Qed.

End Legacy.

(** * More of the code *)

(** ** Values and keys *)

Section MoreCodec.
Import RecordsPage.

Lemma toUtf8Bytes_defined (s : jsstring) :
  forallb isCodeUnit s = true -> isWellFormed s = true ->
  exists bs, Utf8.toUtf8Bytes s = Some bs.
Proof.
  intros Hcu Hwf.
  destruct (Utf8Facts.toUtf8Bytes_run (List.length s) s) as (bs & E & _); auto.
  now exists bs.
Qed.

(** X1. For a record type that is not an address type, the data
    [updateRecord] writes for a well-formed value that does not start
    with U+FEFF is decoded by [loadResolverData] to the same value. *)
Theorem text_value_round_trip (recordType : Z) (value : jsstring) :
  isAddressType recordType = false ->
  forallb isCodeUnit value = true -> isWellFormed value = true ->
  hd 0 value <> 0xFEFF ->
  exists data, encodedData recordType value = Some data /\
               decodeData recordType data = value.
Proof.
  intros Ht Hcu Hwf Hbom.
  destruct (toUtf8Bytes_defined value Hcu Hwf) as [bs Hbs].
  exists (Hex.bytesToHex bs). unfold encodedData. rewrite Ht, Hbs.
  split; [reflexivity|].
  rewrite decodeData_text; auto.
  - now apply decode_toUtf8Bytes.
  - now apply (KeyFacts.toUtf8Bytes_bytes (List.length value) value).
Qed.

Lemma text_value_round_trip_witness :
  exists data,
    encodedData RecordTypes.TYPE_IPFS_CID (js "QmTestCID123") = Some data /\
    decodeData RecordTypes.TYPE_IPFS_CID data = js "QmTestCID123".
Proof.
  apply (text_value_round_trip RecordTypes.TYPE_IPFS_CID (js "QmTestCID123"));
    try reflexivity.
  simpl; lia.
Defined.

(** X2. Whatever the text, the key built for it is [0x] followed by 64
    lower-case hexadecimal digits: 66 code units that ethers reads as
    exactly 32 bytes, and that the page's own parser reads as the same
    bytes. *)
Theorem key_is_bytes32 (text key : jsstring) :
  forallb isCodeUnit text = true ->
  KeyCodec.bytes32Hex text = Some key ->
  List.length key = 66%nat /\
  exists bs, List.length bs = 32%nat /\ Forall is_byte bs /\
             key = Hex.bytesToHex bs /\
             Hex.getBytes key = Some bs /\ Hex.hexToBytes key = bs.
Proof.
  intros Hcu Hkey. unfold KeyCodec.bytes32Hex in Hkey.
  destruct (Utf8.toUtf8Bytes text) as [raw|] eqn:Hraw; [|discriminate].
  assert (Hk : key = Hex.bytesToHex (KeyCodec.toBytes32 raw))
    by (cbn [option_map] in Hkey; congruence).
  assert (Hb : Forall is_byte (KeyCodec.toBytes32 raw)).
  { apply KeyFacts.toBytes32_bytes.
    now apply (KeyFacts.toUtf8Bytes_bytes (List.length text) text). }
  split.
  - rewrite Hk. unfold Hex.bytesToHex. rewrite length_app.
    rewrite (flat_map_constant_length (c := 2%nat)).
    + now rewrite KeyFacts.toBytes32_length.
    + intros b _. unfold Hex.byteToHex. now destruct (b <? 16).
  - exists (KeyCodec.toBytes32 raw). repeat split; auto.
    + apply KeyFacts.toBytes32_length.
    + rewrite Hk. now apply HexFacts.getBytes_bytesToHex.
    + rewrite Hk. now apply HexFacts.hexToBytes_bytesToHex.
Qed.

Lemma key_is_bytes32_witness :
  List.length
    (js "0x616c696365000000000000000000000000000000000000000000000000000000")
  = 66%nat.
Proof.
  exact (proj1 (key_is_bytes32 (js "alice")
    (js "0x616c696365000000000000000000000000000000000000000000000000000000")
    eq_refl eq_refl)).
Defined.

End MoreCodec.

Section MoreKeys.
Import Utf8 BitFacts Utf8Facts.

(** A string without U+0000 has no zero byte in its UTF-8 form. *)
Lemma toUtf8Bytes_nonzero : forall (n : nat) (s : jsstring) (bs : bytes),
  (List.length s <= n)%nat -> forallb isCodeUnit s = true -> ~ In 0 s ->
  toUtf8Bytes s = Some bs -> ~ In 0 bs.
Proof.
  induction n as [|n IH]; intros [|c rest] bs Hlen Hcu Hnul;
    try (simpl in Hlen; lia);
    try (cbn [toUtf8Bytes]; intros H; assert (bs = []) as -> by congruence;
         intros []).
  cbn [forallb] in Hcu. apply andb_true_iff in Hcu as [Hc Hrest].
  pose proof (isCodeUnit_range c Hc) as Hr.
  assert (Hc0 : c <> 0) by (intros ->; apply Hnul; now left).
  assert (Hnul' : ~ In 0 rest) by (intros H; apply Hnul; now right).
  cbn [toUtf8Bytes]. rewrite (high_mask c Hr).
  destruct (Z.ltb_spec c 0x80); [|destruct (Z.ltb_spec c 0x800)].
  - destruct (toUtf8Bytes rest) as [r|] eqn:E; [|discriminate].
    intros [= <-]. intros [Hz|Hz]; [lia|].
    revert Hz. apply (IH rest); auto. simpl in Hlen; lia.
  - destruct (toUtf8Bytes rest) as [r|] eqn:E; [|discriminate].
    intros [= <-].
    rewrite shiftr_6, land_3f, lor_c0, lor_80 by euclid.
    intros [Hz|[Hz|Hz]]; [euclid|euclid|].
    revert Hz. apply (IH rest); auto. simpl in Hlen; lia.
  - destruct (isHighSurrogate c) eqn:Hhigh.
    + destruct rest as [|c2 rest']; [discriminate|].
      cbn [forallb] in Hrest. apply andb_true_iff in Hrest as [Hc2 Hrest].
      pose proof (isCodeUnit_range c2 Hc2) as Hr2.
      rewrite (low_mask c2 Hr2).
      destruct (isLowSurrogate c2) eqn:Hlow; [|discriminate].
      destruct (toUtf8Bytes rest') as [r|] eqn:E; [|discriminate].
      cbn [option_map]. intros Heq.
      assert (Hbs : bs = match Some bs with Some x => x | None => [] end)
        by reflexivity.
      rewrite <- Heq in Hbs. subst bs.
      unfold isHighSurrogate, isLowSurrogate in *.
      rewrite !land_3ff, shiftl_10.
      rewrite shiftr_18, shiftr_12, shiftr_6, !land_3f, lor_f0, !lor_80
        by euclid.
      intros [Hz|[Hz|[Hz|[Hz|Hz]]]]; try euclid.
      revert Hz. apply (IH rest'); auto; [simpl in Hlen; lia|].
      intros Hz. apply Hnul'. now right.
    + destruct (toUtf8Bytes rest) as [r|] eqn:E; [|discriminate].
      intros [= <-].
      rewrite shiftr_12, shiftr_6, !land_3f, lor_e0, !lor_80 by euclid.
      intros [Hz|[Hz|[Hz|Hz]]]; try euclid.
      revert Hz. apply (IH rest); auto. simpl in Hlen; lia.
Qed.

Lemma zero_padding_inj (a b : bytes) (i j : nat) :
  ~ In 0 a -> ~ In 0 b -> a ++ repeat 0 i = b ++ repeat 0 j -> a = b.
Proof.
  revert b. induction a as [|x a IH]; intros [|y b] Ha Hb H.
  - reflexivity.
  - exfalso. destruct i; cbn in H; [discriminate|].
    injection H as H _. apply Hb. left. now symmetry.
  - exfalso. destruct j; cbn in H; [discriminate|].
    injection H as H _. apply Ha. now left.
  - cbn in H. injection H as -> H. f_equal.
    apply IH; auto; intros Hin; [apply Ha | apply Hb]; now right.
Qed.

Lemma firstn_not_in (n : nat) (l : bytes) : ~ In 0 l -> ~ In 0 (firstn n l).
Proof.
  intros H Hin. apply H. rewrite <- (firstn_skipn n l).
  apply in_or_app. now left.
Qed.

(** X3. A name longer than 32 bytes of UTF-8 is cut without notice: two
    names without U+0000 get the same key exactly when the first 32
    bytes of their UTF-8 forms agree. *)
Theorem keys_collide_on_first_32_bytes (s t : jsstring) (bs bt : bytes) :
  forallb isCodeUnit s = true -> forallb isCodeUnit t = true ->
  ~ In 0 s -> ~ In 0 t ->
  toUtf8Bytes s = Some bs -> toUtf8Bytes t = Some bt ->
  (KeyCodec.bytes32Hex s = KeyCodec.bytes32Hex t
   <-> firstn 32 bs = firstn 32 bt).
Proof.
  intros Hs Ht Hns Hnt Hbs Hbt.
  unfold KeyCodec.bytes32Hex. rewrite Hbs, Hbt. cbn [option_map].
  pose proof (KeyFacts.toUtf8Bytes_bytes (List.length s) s bs
                (Nat.le_refl _) Hs Hbs) as Bs.
  pose proof (KeyFacts.toUtf8Bytes_bytes (List.length t) t bt
                (Nat.le_refl _) Ht Hbt) as Bt.
  pose proof (toUtf8Bytes_nonzero (List.length s) s bs
                (Nat.le_refl _) Hs Hns Hbs) as Zs.
  pose proof (toUtf8Bytes_nonzero (List.length t) t bt
                (Nat.le_refl _) Ht Hnt Hbt) as Zt.
  split.
  - intros H.
    assert (H' : Hex.bytesToHex (KeyCodec.toBytes32 bs)
                 = Hex.bytesToHex (KeyCodec.toBytes32 bt)) by congruence.
    apply bytesToHex_inj in H'; auto using KeyFacts.toBytes32_bytes.
    unfold KeyCodec.toBytes32 in H'.
    apply zero_padding_inj in H'; auto using firstn_not_in.
  - intros H. unfold KeyCodec.toBytes32. now rewrite H.
Qed.

Lemma keys_collide_on_first_32_bytes_witness :
  KeyCodec.bytes32Hex (js "abcdefghijklmnopqrstuvwxyz0123456789")
  = KeyCodec.bytes32Hex (js "abcdefghijklmnopqrstuvwxyz012345-other").
Proof.
  refine (proj2 (keys_collide_on_first_32_bytes
                   (js "abcdefghijklmnopqrstuvwxyz0123456789")
                   (js "abcdefghijklmnopqrstuvwxyz012345-other")
                   (js "abcdefghijklmnopqrstuvwxyz0123456789")
                   (js "abcdefghijklmnopqrstuvwxyz012345-other")
                   eq_refl eq_refl _ _ eq_refl eq_refl) eq_refl);
    simpl; intros H; repeat (destruct H as [H|H]; [discriminate|]); exact H.
Defined.

(** X4. The name shown in the domain list leads back to the key it came
    from: when a registry event carries the key of a good name (well
    formed, at most 32 bytes, no U+0000, no leading U+FEFF), the key the
    records page builds from the decoded name is that same key. *)
Theorem listed_name_gives_back_key (s : jsstring) (bs : bytes) (key : jsstring) :
  forallb isCodeUnit s = true -> isWellFormed s = true ->
  toUtf8Bytes s = Some bs -> (List.length bs <= 32)%nat ->
  ~ In 0 s -> hd 0 s <> 0xFEFF ->
  KeyCodec.bytes32Hex s = Some key ->
  KeyCodec.bytes32Hex (HomePage.nameStr key) = Some key.
Proof.
  intros Hcu Hwf Hbs Hlen Hnul Hbom Hkey.
  pose proof (KeyFacts.nameStr_bytes32Hex s bs Hcu Hwf Hbs Hlen Hnul Hbom) as H.
  rewrite Hkey in H. cbn [option_map] in H.
  assert (E : HomePage.nameStr key = s) by congruence.
  now rewrite E.
Qed.

Lemma listed_name_gives_back_key_witness :
  KeyCodec.bytes32Hex
    (HomePage.nameStr
       (js "0x616c696365000000000000000000000000000000000000000000000000000000"))
  = Some (js "0x616c696365000000000000000000000000000000000000000000000000000000").
Proof.
  apply (listed_name_gives_back_key (js "alice") (js "alice"));
    try reflexivity; simpl; lia.
Defined.

End MoreKeys.

(** ** More on the reduction *)

Section MoreReduce.
Import RecordsPage ReduceFacts RecordsTable.

(** X5. Keys do not interfere: the entry of a key after the reduction is
    the one obtained from the events that write that key alone. *)
Theorem unrelated_events_do_not_matter (k : jsstring) (events : list LogEntry) :
  JsMap.get k (reduce events)
  = JsMap.get k (reduce (filter (writes k) events)).
Proof.
  assert (H : forall m m' : JsMap.t RecordData,
             JsMap.get k m = JsMap.get k m' ->
             JsMap.get k (fold_left processEvent events m)
             = JsMap.get k
                 (fold_left processEvent (filter (writes k) events) m')).
  { induction events as [|e events IH]; intros m m' Hm; [exact Hm|].
    cbn [filter fold_left]. destruct (writes k e) eqn:Hw.
    - cbn [fold_left]. apply IH.
      destruct e as [a|]; [|discriminate].
      cbn [writes] in Hw. apply str_eqb_eq in Hw. subst k.
      cbn [processEvent]. now rewrite !get_set_same.
    - apply IH. now rewrite get_processEvent_other. }
  now apply H.
Qed.

Lemma in_set (V : Type) (m : JsMap.t V) k v k' v' :
  In (k', v') (JsMap.set k v m) -> (k', v') = (k, v) \/ In (k', v') m.
Proof.
  induction m as [|[k0 v0] m IH]; cbn [JsMap.set].
  - intros [H|[]]. left. now symmetry.
  - destruct (str_eqb k k0).
    + intros [H|H]; [left; now symmetry | right; now right].
    + intros [H|H]; [right; now left|].
      destruct (IH H) as [E|E]; [now left | right; now right].
Qed.

Lemma get_none_not_key (V : Type) (m : JsMap.t V) k :
  JsMap.get k m = None -> ~ In k (map fst m).
Proof.
  induction m as [|[k0 v0] m IH]; cbn [JsMap.get map fst]; [intros _ []|].
  destruct (str_eqb k k0) eqn:E; [discriminate|].
  intros H [H0|H0].
  - subst k0. now rewrite str_eqb_refl in E.
  - now apply IH.
Qed.

Lemma set_absent (V : Type) (m : JsMap.t V) k v :
  JsMap.get k m = None -> JsMap.set k v m = m ++ [(k, v)].
Proof.
  induction m as [|[k0 v0] m IH]; cbn [JsMap.get JsMap.set]; [reflexivity|].
  destruct (str_eqb k k0); [discriminate|].
  intros H. cbn [app]. now rewrite IH.
Qed.

Lemma nodup_keys_set (V : Type) (m : JsMap.t V) k v :
  NoDup (map fst m) -> NoDup (map fst (JsMap.set k v m)).
Proof.
  intros H. rewrite keys_set. unfold JsMap.has.
  destruct (JsMap.get k m) eqn:E; [exact H|].
  apply get_none_not_key in E.
  apply NoDup_app; [exact H | repeat constructor; intros [] | ].
  intros x Hx [<-|[]]. contradiction.
Qed.

Lemma length_set (V : Type) (m : JsMap.t V) k v :
  (List.length (JsMap.set k v m) <= S (List.length m))%nat.
Proof.
  induction m as [|[k0 v0] m IH]; cbn [JsMap.set List.length]; [lia|].
  destruct (str_eqb k k0); cbn [List.length]; lia.
Qed.

(** Every entry of a map built by the loop sits under its own key. *)
Lemma entries_under_own_key (es : list LogEntry) : forall (m : JsMap.t RecordData),
  (forall k r, In (k, r) m -> k = rowKey r) ->
  forall k r, In (k, r) (fold_left processEvent es m) -> k = rowKey r.
Proof.
  induction es as [|e es IH]; intros m Hm; cbn [fold_left]; [exact Hm|].
  apply IH. destruct e as [a|]; cbn [processEvent]; [|exact Hm].
  intros k r H. apply in_set in H as [E|E]; [|now apply Hm].
  now injection E as -> ->.
Qed.

Lemma rows_have_distinct_keys_aux (events : list LogEntry) (args : EventArgs) :
  (forall kr, In kr (reduce events) -> rowKey (snd kr) = fst kr) /\
  (forall kr, In kr (JsMap.set (keyOf args) (entryOf args) (reduce events)) ->
              rowKey (snd kr) = fst kr).
Proof.
  assert (H : forall k r, In (k, r) (reduce events) -> k = rowKey r).
  { apply entries_under_own_key. intros k r []. }
  split.
  - intros [k r] Hkr. symmetry. now apply H.
  - intros [k r] Hkr. apply in_set in Hkr as [E|E].
    + now injection E as -> ->.
    + symmetry. now apply H.
Qed.

Lemma reduce_rows (events : list LogEntry) :
  (forall k r, In (k, r) (reduce events) ->
     k = rowKey r /\
     exists args, In (EventLog args) events /\ r = entryOf args) /\
  NoDup (map fst (reduce events)) /\
  NoDup (map rowKey (JsMap.values (reduce events))) /\
  (List.length (JsMap.values (reduce events)) <= List.length events)%nat.
Proof.
  assert (Inv : forall (es : list LogEntry) (m : JsMap.t RecordData),
     (forall k r, In (k, r) m ->
        k = rowKey r /\
        exists args, In (EventLog args) events /\ r = entryOf args) ->
     NoDup (map fst m) ->
     incl es events ->
     (forall k r, In (k, r) (fold_left processEvent es m) ->
        k = rowKey r /\
        exists args, In (EventLog args) events /\ r = entryOf args) /\
     NoDup (map fst (fold_left processEvent es m))).
  { induction es as [|e es IH]; intros m Hin Hnd Hincl; cbn [fold_left].
    - now split.
    - apply IH.
      + destruct e as [a|]; cbn [processEvent]; [|exact Hin].
        intros k r H. apply in_set in H as [E|E]; [|now apply Hin].
        injection E as -> ->. split; [reflexivity|].
        exists a. split; [|reflexivity]. apply Hincl. now left.
      + destruct e as [a|]; cbn [processEvent]; [|exact Hnd].
        now apply nodup_keys_set.
      + intros x Hx. apply Hincl. now right. }
  assert (Len : forall (es : list LogEntry) (m : JsMap.t RecordData),
     (List.length (fold_left processEvent es m)
      <= List.length m + List.length es)%nat).
  { induction es as [|e es IH]; intros m; cbn [fold_left List.length]; [lia|].
    specialize (IH (processEvent m e)).
    destruct e as [a|]; cbn [processEvent] in *.
    - pose proof (length_set _ m (keyOf a) (entryOf a)). lia.
    - lia. }
  destruct (Inv events JsMap.empty) as [Hin Hnd].
  { intros k r []. }
  { constructor. }
  { apply incl_refl. }
  fold (reduce events) in Hin, Hnd.
  split; [exact Hin|]. split; [exact Hnd|]. split.
  - unfold JsMap.values. rewrite map_map.
    erewrite map_ext_in; [exact Hnd|].
    intros [k r] Hkr. cbn [fst snd]. symmetry. now apply Hin.
  - unfold JsMap.values. rewrite length_map.
    specialize (Len events JsMap.empty). exact Len.
Qed.

(** X6. After the reduction every entry sits under the key computed
    from its own record type and label and is the entry of one of the
    events; no key occurs twice, so the rows of the table have pairwise
    distinct keys, and there are at most as many rows as events. *)
Theorem rows_have_distinct_keys (events : list LogEntry) :
  (forall k r, In (k, r) (reduce events) ->
     k = rowKey r /\
     exists args, In (EventLog args) events /\ r = entryOf args) /\
  NoDup (map fst (reduce events)) /\
  NoDup (map rowKey (JsMap.values (reduce events))) /\
  (List.length (JsMap.values (reduce events)) <= List.length events)%nat.
Proof. exact (reduce_rows events). Qed.

Lemma set_present (V : Type) (m : JsMap.t V) k v v0 :
  JsMap.get k m = Some v0 ->
  exists m1 m2,
    m = m1 ++ (k, v0) :: m2 /\ JsMap.set k v m = m1 ++ (k, v) :: m2.
Proof.
  induction m as [|[k0 v1] m IH]; cbn [JsMap.get JsMap.set]; [discriminate|].
  destruct (str_eqb k k0) eqn:E.
  - intros H. apply str_eqb_eq in E. subst k0.
    assert (v1 = v0) as -> by congruence.
    now exists [], m.
  - intros H. destruct (IH H) as (m1 & m2 & -> & ->).
    now exists ((k0, v1) :: m1), m2.
Qed.

(** X7. A further event never moves a row: when its key is already in
    the table, the row of that key is replaced, where it stands, by the
    entry of the event, and every other row stays as it was, so the rows
    keep their keys and their order; when the key is new, its row is
    added last. *)
Theorem update_keeps_row_order (events : list LogEntry) (args : EventArgs) :
  let rows := JsMap.values (reduce events) in
  let rows' := JsMap.values (reduce (events ++ [EventLog args])) in
  if JsMap.has (keyOf args) (reduce events)
  then (exists before old after,
          rows = before ++ old :: after /\
          rowKey old = keyOf args /\
          rows' = before ++ entryOf args :: after) /\
       map rowKey rows' = map rowKey rows
  else rows' = rows ++ [entryOf args].
Proof.
  intros rows rows'. unfold rows', rows, reduce.
  rewrite fold_left_app. cbn [fold_left processEvent].
  fold (reduce events).
  destruct (rows_have_distinct_keys_aux events args) as [Hin Hin'].
  unfold JsMap.has.
  destruct (JsMap.get (keyOf args) (reduce events)) as [old|] eqn:E.
  - split.
    + destruct (set_present _ (reduce events) (keyOf args) (entryOf args) old E)
        as (m1 & m2 & Hm & Hs).
      exists (JsMap.values m1), old, (JsMap.values m2).
      rewrite Hs, Hm. unfold JsMap.values. rewrite !map_app. cbn [map snd].
      split; [reflexivity|]. split; [|reflexivity].
      apply (Hin (keyOf args, old)). rewrite Hm.
      apply in_or_app. right. now left.
    + pose proof (keys_set (reduce events) (keyOf args) (entryOf args)) as Hk.
      unfold JsMap.has in Hk. rewrite E in Hk.
      unfold JsMap.values. rewrite !map_map.
      erewrite (map_ext_in _ fst); [|exact Hin'].
      erewrite (map_ext_in _ fst (reduce events)); [exact Hk | exact Hin].
  - rewrite set_absent by assumption.
    unfold JsMap.values. now rewrite map_app.
Qed.

End MoreReduce.

(** ** More on the handlers of the records page *)

Section MoreHandlers.
Import RecordsPage Handler RecordsTable.

(** X8. [loadResolverData], the page having a name, a wallet and a
    signer: when the query succeeds the records are replaced by the
    reduced events and the error message is left as it was (an earlier
    error stays on screen); when the query throws, the error is shown
    and the records are left as they were. In both cases nothing is
    thrown and [loading] ends false. *)
Theorem loadResolverData_outcome (env : Env) (p : Page) (nameHex : jsstring) :
  noDomain env = false -> walletClient env = true ->
  signerAvailable env = true ->
  KeyCodec.bytes32Hex (domain env) = Some nameHex ->
  loadResolverData env p
  = (Ok tt,
     match queryFilter env nameHex with
     | Ok events =>
         mkPage false (error p) (JsMap.values (reduce events))
                (editingRecordKey p) (editValue p) (editType p) (editLabel p)
                (submitted p) (alerts p)
     | Throw e =>
         mkPage false (Message e) (records p)
                (editingRecordKey p) (editValue p) (editType p) (editLabel p)
                (submitted p) (alerts p)
     end).
Proof.
  intros Hd Hw Hs Hn.
  unfold loadResolverData, getResolverContract.
  rewrite Hd, Hw, Hs. cbn [orb negb andb].
  unfold finally, tryCatch, bind, modify, orThrow, ret, throw.
  rewrite Hn. now destruct (queryFilter env nameHex).
Qed.

Lemma loadResolverData_outcome_witness :
  let env := mkEnv (Some (js "alice")) true true
               (fun _ => Throw (LedgerError (js "timeout")))
               (fun _ => Ok (js "0xabc")) (fun _ => Ok tt) in
  let p := mkPage false NoError [] None [] RecordTypes.TYPE_A [] [] [] in
  loadResolverData env p
  = (Ok tt,
     mkPage false (Message (LedgerError (js "timeout"))) [] None []
            RecordTypes.TYPE_A [] [] []).
Proof.
  intros env p.
  exact (loadResolverData_outcome env p
           (js "0x616c696365000000000000000000000000000000000000000000000000000000")
           eq_refl eq_refl eq_refl eq_refl).
Defined.

(** X9. A submission the ledger refuses, at [setRecord] or while waiting
    for the transaction: the call was made once, the error is shown, and
    the form is left as the user filled it (no alert, no reset, no
    reload of the records), with [loading] back to false. *)
Theorem refused_submission_keeps_form (env : Env) (recordType : Z)
    (label value : jsstring) (p : Page) (nameHex lab dat : jsstring) (e : Exn) :
  noDomain env = false -> falsy value = false -> walletClient env = true ->
  signerAvailable env = true ->
  KeyCodec.bytes32Hex (domain env) = Some nameHex ->
  labelHex label = Some lab ->
  encodedData recordType value = Some dat ->
  let call := mkCall nameHex recordType lab dat in
  (setRecord env call = Throw e \/
   exists tx, setRecord env call = Ok tx /\ wait env tx = Throw e) ->
  updateRecord env recordType label value p
  = (Ok tt,
     mkPage false (Message e) (records p) (editingRecordKey p) (editValue p)
            (editType p) (editLabel p) (submitted p ++ [call]) (alerts p)).
Proof.
  intros Hd Hv Hw Hs Hn Hl He call Hfail.
  unfold updateRecord, getResolverContract.
  rewrite Hd, Hv, Hw, Hs. cbn [orb negb andb].
  unfold finally, tryCatch, bind, modify, orThrow, ret, throw.
  rewrite Hn, Hl, He. fold call.
  destruct Hfail as [H | (tx & H & H')].
  - now rewrite H.
  - now rewrite H, H'.
Qed.

Lemma refused_submission_keeps_form_witness :
  let env := mkEnv (Some (js "alice")) true true
               (fun _ => Ok [])
               (fun _ => Throw (LedgerError (js "not owner")))
               (fun _ => Ok tt) in
  let p := mkPage false NoError [] (Some (js "new-record")) (js "v1")
                  RecordTypes.TYPE_TXT [] [] [] in
  updateRecord env RecordTypes.TYPE_TXT [] (js "v1") p
  = (Ok tt,
     mkPage false (Message (LedgerError (js "not owner"))) []
            (Some (js "new-record")) (js "v1") RecordTypes.TYPE_TXT []
            [mkCall
               (js "0x616c696365000000000000000000000000000000000000000000000000000000")
               RecordTypes.TYPE_TXT KeyCodec.zeroKey (js "0x7631")]
            []).
Proof.
  intros env p.
  refine (refused_submission_keeps_form env RecordTypes.TYPE_TXT [] (js "v1") p
            _ _ _ (LedgerError (js "not owner"))
            eq_refl eq_refl eq_refl eq_refl eq_refl eq_refl eq_refl _).
  left. reflexivity.
Defined.

(** X10. A submission the ledger accepts and confirms: one call is
    made, the transaction hash is shown in an alert, the edit form is
    reset, and the records are loaded again, as [loadResolverData] does
    on the page that results. *)
Theorem accepted_submission_resets_form (env : Env) (recordType : Z)
    (label value : jsstring) (p : Page) (nameHex lab dat tx : jsstring) :
  noDomain env = false -> falsy value = false -> walletClient env = true ->
  signerAvailable env = true ->
  KeyCodec.bytes32Hex (domain env) = Some nameHex ->
  labelHex label = Some lab ->
  encodedData recordType value = Some dat ->
  let call := mkCall nameHex recordType lab dat in
  setRecord env call = Ok tx -> wait env tx = Ok tt ->
  updateRecord env recordType label value p
  = (Ok tt,
     match queryFilter env nameHex with
     | Ok events =>
         mkPage false NoError (JsMap.values (reduce events)) None []
                RecordTypes.TYPE_A [] (submitted p ++ [call]) (alerts p ++ [tx])
     | Throw e =>
         mkPage false (Message e) (records p) None []
                RecordTypes.TYPE_A [] (submitted p ++ [call]) (alerts p ++ [tx])
     end).
Proof.
  intros Hd Hv Hw Hs Hn Hl He call Hset Hwait.
  unfold updateRecord, getResolverContract.
  rewrite Hd, Hv, Hw, Hs. cbn [orb negb andb].
  unfold finally, tryCatch, bind, modify, orThrow, ret, throw.
  rewrite Hn, Hl, He. fold call. rewrite Hset, Hwait.
  rewrite (loadResolverData_outcome env _ nameHex Hd Hw Hs Hn).
  now destruct (queryFilter env nameHex).
Qed.

Lemma accepted_submission_resets_form_witness :
  let env := mkEnv (Some (js "alice")) true true
               (fun _ => Ok []) (fun _ => Ok (js "0xabc")) (fun _ => Ok tt) in
  let p := mkPage false NoError [] (Some (js "new-record")) (js "v1")
                  RecordTypes.TYPE_TXT [] [] [] in
  updateRecord env RecordTypes.TYPE_TXT [] (js "v1") p
  = (Ok tt,
     mkPage false NoError [] None [] RecordTypes.TYPE_A []
            [mkCall
               (js "0x616c696365000000000000000000000000000000000000000000000000000000")
               RecordTypes.TYPE_TXT KeyCodec.zeroKey (js "0x7631")]
            [js "0xabc"]).
Proof.
  intros env p.
  exact (accepted_submission_resets_form env RecordTypes.TYPE_TXT [] (js "v1") p
           _ _ _ (js "0xabc")
           eq_refl eq_refl eq_refl eq_refl eq_refl eq_refl eq_refl
           eq_refl eq_refl).
Defined.

(** X11. For an address type, a value that is not 40 hexadecimal digits
    (with or without [0x]) is refused by the coder before anything is
    sent: no call reaches [setRecord], the error is shown and the form
    is kept. The value must not start with [X] (the ICAP form of
    [getAddress], which starts with [XE], is not modelled). A Bitcoin
    address in its own notation is such a value. *)
Theorem bad_address_is_not_submitted (env : Env) (recordType : Z)
    (label value : jsstring) (p : Page) (nameHex lab : jsstring) :
  noDomain env = false -> falsy value = false -> walletClient env = true ->
  signerAvailable env = true ->
  KeyCodec.bytes32Hex (domain env) = Some nameHex ->
  labelHex label = Some lab ->
  isAddressType recordType = true ->
  Address.matchesHexAddress value = false -> hd 0 value <> 88 ->
  updateRecord env recordType label value p
  = (Ok tt,
     mkPage false (Message InvalidArgument) (records p) (editingRecordKey p)
            (editValue p) (editType p) (editLabel p) (submitted p) (alerts p)).
Proof.
  intros Hd Hv Hw Hs Hn Hl Ht Hm _.
  unfold updateRecord, getResolverContract.
  rewrite Hd, Hv, Hw, Hs. cbn [orb negb andb].
  unfold finally, tryCatch, bind, modify, orThrow, ret, throw.
  rewrite Hn, Hl. unfold encodedData. rewrite Ht.
  unfold Abi.encodeAddress, Address.getAddress. now rewrite Hm.
Qed.

Lemma bad_address_is_not_submitted_witness :
  let env := mkEnv (Some (js "alice")) true true
               (fun _ => Ok []) (fun _ => Ok (js "0xabc")) (fun _ => Ok tt) in
  let p := mkPage false NoError [] None [] RecordTypes.TYPE_A [] [] [] in
  updateRecord env RecordTypes.TYPE_BTC_ADDRESS []
    (js "bc1qxy2kgdygjrsqtzq2n0yrf2493p83kkfjhx0wlh") p
  = (Ok tt,
     mkPage false (Message InvalidArgument) [] None [] RecordTypes.TYPE_A []
            [] []).
Proof.
  intros env p.
  refine (bad_address_is_not_submitted env RecordTypes.TYPE_BTC_ADDRESS []
            (js "bc1qxy2kgdygjrsqtzq2n0yrf2493p83kkfjhx0wlh") p _ _
            eq_refl eq_refl eq_refl eq_refl eq_refl eq_refl eq_refl eq_refl _).
  simpl; lia.
Defined.

(** Past the guard and the encodings, exactly one call is made,
    whatever the ledger answers. *)
Lemma updateRecord_calls_once env recordType label value p nameHex lab dat :
  noDomain env = false -> falsy value = false -> walletClient env = true ->
  signerAvailable env = true ->
  KeyCodec.bytes32Hex (domain env) = Some nameHex ->
  labelHex label = Some lab ->
  encodedData recordType value = Some dat ->
  submitted (snd (updateRecord env recordType label value p))
  = submitted p ++ [mkCall nameHex recordType lab dat].
Proof.
  intros Hd Hv Hw Hs Hn Hl He.
  unfold updateRecord, getResolverContract.
  rewrite Hd, Hv, Hw, Hs. cbn [orb negb andb].
  unfold finally, tryCatch, bind, modify, orThrow, ret, throw.
  rewrite Hn, Hl, He.
  destruct (setRecord env _) as [tx|e]; [|reflexivity].
  destruct (wait env tx) as [[]|e]; [|reflexivity].
  match goal with
  | |- context [loadResolverData env ?q] =>
      pose proof (loadResolverData_submitted env q) as Hq;
      destruct (loadResolverData env q) as [[[]|e] q']
  end; exact Hq.
Qed.

(** X12. Editing a row and saving writes to the key of that row: after
    the Edit button of a row, a new value typed and Save, the one call
    made carries the record type of the row and a label that decodes to
    the label of the row. The label of the row must be the default one,
    or a non-blank, well-formed label of at most 32 bytes without a
    leading U+FEFF. *)
Theorem saving_an_edit_targets_its_row (env : Env) (p : Page)
    (r : RecordData) (v nameHex dat : jsstring) (bs : bytes) :
  noDomain env = false -> falsy v = false -> walletClient env = true ->
  signerAvailable env = true ->
  KeyCodec.bytes32Hex (domain env) = Some nameHex ->
  encodedData (recordType r) v = Some dat ->
  forallb isCodeUnit (label r) = true -> isWellFormed (label r) = true ->
  Utf8.toUtf8Bytes (label r) = Some bs -> (List.length bs <= 32)%nat ->
  ~ In 0 (label r) -> hd 0 (label r) <> 0xFEFF ->
  label r = [] \/ forallb isStrWhiteSpaceChar (label r) = false ->
  let p1 := setEditValue v (onEditClick r p) in
  exists call,
    submitted (snd (handleSaveRecord env p1)) = submitted p ++ [call] /\
    call_recordType call = recordType r /\
    call_data call = dat /\
    recordKey (call_recordType call) (decodeLabel (call_label call))
    = rowKey r.
Proof.
  intros Hd Hv Hw Hs Hn He Hcu Hwf Hbs Hlen Hnul Hbom Hblank p1.
  pose proof (decodeLabel_labelHex (label r) bs Hcu Hwf Hbs Hlen Hnul Hbom)
    as Hrt.
  destruct (labelHex (label r)) as [lab|] eqn:Hlab; [|discriminate].
  cbn [option_map] in Hrt.
  assert (Hdec : decodeLabel lab = label r).
  { destruct Hblank as [E|E].
    - rewrite E in *. cbn [forallb] in Hrt. congruence.
    - rewrite E in Hrt. congruence. }
  exists (mkCall nameHex (recordType r) lab dat).
  split; [|cbn [call_recordType call_data call_label]; now rewrite Hdec].
  unfold handleSaveRecord.
  change (editType p1) with (recordType r).
  change (editLabel p1) with (label r).
  change (editValue p1) with v.
  now rewrite (updateRecord_calls_once env (recordType r) (label r) v p1
                 nameHex lab dat).
Qed.

Lemma saving_an_edit_targets_its_row_witness :
  let env := mkEnv (Some (js "alice")) true true
               (fun _ => Ok []) (fun _ => Ok (js "0xabc")) (fun _ => Ok tt) in
  let p := mkPage false NoError [] None [] RecordTypes.TYPE_A [] [] [] in
  let r := mkRecord RecordTypes.TYPE_TXT (js "blog") (js "0x7631") (js "v1") in
  exists call,
    submitted (snd (handleSaveRecord env (setEditValue (js "v2") (onEditClick r p))))
    = submitted p ++ [call] /\
    call_recordType call = recordType r /\
    call_data call = js "0x7632" /\
    recordKey (call_recordType call) (decodeLabel (call_label call))
    = rowKey r.
Proof.
  intros env p r.
  refine (saving_an_edit_targets_its_row env p r (js "v2") _ (js "0x7632")
            (js "blog") eq_refl eq_refl eq_refl eq_refl eq_refl eq_refl
            eq_refl eq_refl eq_refl _ _ _ _).
  - simpl; lia.
  - simpl; lia.
  - simpl; lia.
  - right. reflexivity.
Defined.

(** X13. A row whose label is made of white space only (written by
    another client) cannot be updated from the page: Edit and Save send
    the all-zero label, so the call targets the default label of that
    record type, which is another key than the key of the row. *)
Theorem blank_label_row_is_not_updated (env : Env) (p : Page)
    (r : RecordData) (v nameHex dat : jsstring) :
  noDomain env = false -> falsy v = false -> walletClient env = true ->
  signerAvailable env = true ->
  KeyCodec.bytes32Hex (domain env) = Some nameHex ->
  encodedData (recordType r) v = Some dat ->
  label r <> [] -> forallb isStrWhiteSpaceChar (label r) = true ->
  let p1 := setEditValue v (onEditClick r p) in
  submitted (snd (handleSaveRecord env p1))
  = submitted p ++ [mkCall nameHex (recordType r) KeyCodec.zeroKey dat] /\
  recordKey (recordType r) (decodeLabel KeyCodec.zeroKey)
  = recordKey (recordType r) [] /\
  recordKey (recordType r) (decodeLabel KeyCodec.zeroKey) <> rowKey r.
Proof.
  intros Hd Hv Hw Hs Hn He Hne Hblank p1.
  assert (Hlab : labelHex (label r) = Some KeyCodec.zeroKey).
  { unfold labelHex. now rewrite blank_label, Hblank. }
  split; [|split].
  - unfold handleSaveRecord.
    change (editType p1) with (recordType r).
    change (editLabel p1) with (label r).
    change (editValue p1) with v.
    now rewrite (updateRecord_calls_once env (recordType r) (label r) v p1
                   nameHex KeyCodec.zeroKey dat).
  - reflexivity.
  - change (decodeLabel KeyCodec.zeroKey) with (@nil Z).
    unfold rowKey, recordKey. intros H.
    apply app_inv_head in H. apply app_inv_head in H. now symmetry in H.
Qed.

Lemma blank_label_row_is_not_updated_witness :
  let env := mkEnv (Some (js "alice")) true true
               (fun _ => Ok []) (fun _ => Ok (js "0xabc")) (fun _ => Ok tt) in
  let p := mkPage false NoError [] None [] RecordTypes.TYPE_A [] [] [] in
  let r := mkRecord RecordTypes.TYPE_TXT (js " ") (js "0x7631") (js "v1") in
  submitted (snd (handleSaveRecord env (setEditValue (js "v2") (onEditClick r p))))
  = [mkCall
       (js "0x616c696365000000000000000000000000000000000000000000000000000000")
       RecordTypes.TYPE_TXT KeyCodec.zeroKey (js "0x7632")].
Proof.
  intros env p r.
  refine (proj1 (blank_label_row_is_not_updated env p r (js "v2") _ (js "0x7632")
                   eq_refl eq_refl eq_refl eq_refl eq_refl eq_refl _ eq_refl)).
  discriminate.
Defined.

End MoreHandlers.

(** ** The table of the records page *)

Section MoreTable.
Import RecordTypes RecordsPage RecordsTable.

Lemma numberToString_nonempty (n : Z) : numberToString n <> [].
Proof.
  unfold numberToString, NilZero.string_of_uint.
  destruct (N.to_uint (Z.to_N n)); cbn; discriminate.
Qed.

Lemma rowKey_not_new (r : RecordData) :
  str_eqb (rowKey r) (js "new-record") = false.
Proof.
  unfold rowKey, recordKey.
  pose proof (numberToString_digits (recordType r)) as Hd.
  pose proof (numberToString_nonempty (recordType r)) as Hn.
  destruct (numberToString (recordType r)) as [|c s]; [congruence|].
  inversion Hd as [|? ? Hc _]. unfold isDecimalDigit in Hc.
  change (js "new-record") with (110 :: js "ew-record").
  cbn [app str_eqb].
  destruct (Z.eqb_spec c 110); [lia | reflexivity].
Qed.

Lemma filter_none {A} (f : A -> jsstring) (k : jsstring) (l : list A) :
  ~ In k (map f l) -> filter (fun x => str_eqb k (f x)) l = [].
Proof.
  induction l as [|x l IH]; cbn [map filter In]; intros H; [reflexivity|].
  rewrite str_eqb_neq by (intros E; apply H; now left).
  apply IH. intros Hin. apply H. now right.
Qed.

Lemma filter_unique {A} (f : A -> jsstring) (r : A) (l : list A) :
  NoDup (map f l) -> In r l ->
  filter (fun x => str_eqb (f r) (f x)) l = [r].
Proof.
  induction l as [|x l IH]; cbn [map filter In]; intros Hnd Hin; [easy|].
  inversion Hnd as [|? ? Hx Hnd']; subst.
  destruct Hin as [->|Hin].
  - rewrite str_eqb_refl. f_equal. now apply filter_none.
  - rewrite str_eqb_neq.
    + now apply IH.
    + intros E. apply Hx. rewrite <- E. now apply in_map.
Qed.

(** X14. A cleared record (an event without data, [''] or ['0x']) has
    a row whose value cell shows the raw data string, so ['0x'] for a
    record cleared with ['0x'], and whose Edit button opens the form
    with an empty value. *)
Theorem cleared_row_shows_raw_data (args : EventArgs) (p : Page) :
  hasData (args_data args) = false ->
  shownValue (entryOf args) = args_data args /\
  editValue (onEditClick (entryOf args) p) = [] /\
  (shownValue (entryOf args) = [] <-> args_data args = []).
Proof.
  intros H.
  assert (E : decodedValue (entryOf args) = []).
  { cbn [entryOf decodedValue]. unfold decodeData. now rewrite H. }
  assert (S : shownValue (entryOf args) = args_data args).
  { unfold shownValue. now rewrite E. }
  split; [exact S|]. split.
  - unfold onEditClick, handleEditRecord. now rewrite E.
  - now rewrite S.
Qed.

Lemma cleared_row_shows_raw_data_witness :
  let args := mkArgs KeyCodec.zeroKey KeyCodec.zeroKey (JsBigInt 2) (js "0x") in
  let p := mkPage false NoError [] None [] TYPE_A [] [] [] in
  shownValue (entryOf args) = js "0x" /\
  editValue (onEditClick (entryOf args) p) = [] /\
  (shownValue (entryOf args) = [] <-> js "0x" = []).
Proof.
  intros args p. exact (cleared_row_shows_raw_data args p eq_refl).
Defined.

(** X15. After the Edit button of a row of the loaded table, that row
    and no other is in edit mode, and the row of a new record is not
    shown: the key of a row is never ['new-record']. *)
Theorem edit_click_selects_one_row (events : list LogEntry) (r : RecordData)
    (p : Page) :
  In r (JsMap.values (reduce events)) ->
  filter (isEditing (onEditClick r p)) (JsMap.values (reduce events)) = [r] /\
  showsNewRow (onEditClick r p) = false /\
  (forall r', showsNewRow (handleAddNewRecord p) = true /\
              isEditing (handleAddNewRecord p) r' = false).
Proof.
  intros Hin. split; [|split].
  - change (isEditing (onEditClick r p))
      with (fun x => str_eqb (rowKey r) (rowKey x)).
    apply filter_unique; [|exact Hin].
    apply (reduce_rows events).
  - apply rowKey_not_new.
  - intros r'. split; [reflexivity|].
    unfold isEditing, handleAddNewRecord. cbn [editingRecordKey].
    destruct (str_eqb (js "new-record") (rowKey r')) eqn:E; [|reflexivity].
    apply str_eqb_eq in E. pose proof (rowKey_not_new r') as N.
    rewrite <- E, str_eqb_refl in N. discriminate.
Qed.

Lemma edit_click_selects_one_row_witness :
  let a1 := mkArgs KeyCodec.zeroKey KeyCodec.zeroKey (JsBigInt 2) (js "0x7631") in
  let a2 := mkArgs KeyCodec.zeroKey KeyCodec.zeroKey (JsBigInt 1) (js "0x7632") in
  let p := mkPage false NoError [] None [] TYPE_A [] [] [] in
  let events := [EventLog a1; EventLog a2] in
  filter (isEditing (onEditClick (entryOf a2) p)) (JsMap.values (reduce events))
  = [entryOf a2].
Proof.
  intros a1 a2 p events.
  refine (proj1 (edit_click_selects_one_row events (entryOf a2) p _)).
  right. left. reflexivity.
Defined.

Lemma lookupType_in (type : Z) (table : list (Z * jsstring)) (text : jsstring) :
  lookupType type table = Some text -> In (type, text) table.
Proof.
  induction table as [|[t x] table IH]; cbn [lookupType In]; [discriminate|].
  destruct (Z.eqb_spec type t) as [->|_].
  - intros H. left. congruence.
  - intros H. right. now apply IH.
Qed.

Ltac named_type H :=
  apply lookupType_in in H; vm_compute in H;
  repeat match type of H with _ \/ _ => destruct H as [H|H] end;
  [inversion H; clear H; subst ..| destruct H].

(** X16. The badge of the type column tells record types apart: two
    different non-negative record types never get the same badge text,
    whether they are among the ten named ones or shown as [Type n]. *)
Theorem getRecordTypeName_inj (a b : Z) :
  0 <= a -> 0 <= b -> a <> b -> getRecordTypeName a <> getRecordTypeName b.
Proof.
  intros Ha Hb Hab E. apply Hab. revert E.
  unfold getRecordTypeName.
  change (js "Type ") with [84; 121; 112; 101; 32].
  destruct (lookupType a typeNames) as [ta|] eqn:Ea;
    destruct (lookupType b typeNames) as [tb|] eqn:Eb.
  - named_type Ea; named_type Eb; cbn [falsy];
      intros H; first [reflexivity | discriminate H].
  - named_type Ea; cbn [falsy app]; intros H; discriminate H.
  - named_type Eb; cbn [falsy app]; intros H; discriminate H.
  - intros H. apply app_inv_head in H. now apply numberToString_inj.
Qed.

Lemma getRecordTypeName_inj_witness :
  getRecordTypeName TYPE_A <> getRecordTypeName TYPE_ARWEAVE_ID /\
  getRecordTypeName 7 <> getRecordTypeName 70.
Proof.
  split.
  - apply (getRecordTypeName_inj TYPE_A TYPE_ARWEAVE_ID);
      unfold TYPE_A, TYPE_ARWEAVE_ID; lia.
  - apply (getRecordTypeName_inj 7 70); lia.
Defined.

End MoreTable.

(** ** The list of names of the home page *)

Section MoreHome.
Import MyDomains.
Variable toLowerCase : jsstring -> jsstring.
Variable userAddress : jsstring.

Lemma loop_throws (turns : list Turn) (n : jsstring) (e : Exn) (now : Z) :
  In (Registered n (Throw e) now) turns ->
  forall domains, exists e',
    loop toLowerCase userAddress turns domains = Throw e'.
Proof.
  induction turns as [|t turns IH]; cbn [In]; [easy|].
  intros [->|Hin] domains; cbn [loop].
  - now exists e.
  - destruct t as [|n' [record|e'] now']; [now apply IH | | now exists e'].
    destruct (isActive _ _ record now'); now apply IH.
Qed.

Lemma loop_returns (turns : list Turn) :
  (forall n e now, ~ In (Registered n (Throw e) now) turns) ->
  forall domains, exists listed,
    loop toLowerCase userAddress turns domains = Ok (domains ++ listed) /\
    (List.length listed <= List.length turns)%nat /\
    forall d, In d listed <->
      exists n record now,
        In (Registered n (Ok record) now) turns /\
        isActive toLowerCase userAddress record now = true /\
        d = domainOf n record.
Proof.
  induction turns as [|t turns IH]; intros Hok domains; cbn [loop].
  - exists []. rewrite app_nil_r. split; [reflexivity|]. split; [reflexivity|].
    intros d. split; [intros [] | intros (n & r & now & [] & _)].
  - assert (Hok' : forall n e now, ~ In (Registered n (Throw e) now) turns).
    { intros n e now H. apply (Hok n e now). now right. }
    destruct t as [|n [record|e] now].
    + destruct (IH Hok' domains) as (listed & E & L & S).
      exists listed. split; [exact E|]. split; [cbn [List.length]; lia|].
      intros d. rewrite S. split; intros (n & r & now & Hin & H).
      * exists n, r, now. split; [now right | exact H].
      * destruct Hin as [Hin|Hin]; [discriminate|]. now exists n, r, now.
    + destruct (isActive toLowerCase userAddress record now) eqn:A.
      * destruct (IH Hok' (domains ++ [domainOf n record]))
          as (listed & E & L & S).
        exists (domainOf n record :: listed). rewrite E, <- app_assoc.
        split; [reflexivity|]. split; [cbn [List.length]; lia|].
        intros d. cbn [In]. rewrite S. split.
        -- intros [<-|(n' & r & now' & Hin & H)].
           ++ exists n, record, now. split; [now left | now split].
           ++ exists n', r, now'. split; [now right | exact H].
        -- intros (n' & r & now' & [Hin|Hin] & H1 & H2).
           ++ left. injection Hin as -> -> ->. now symmetry.
           ++ right. now exists n', r, now'.
      * destruct (IH Hok' domains) as (listed & E & L & S).
        exists listed. split; [exact E|]. split; [cbn [List.length]; lia|].
        intros d. rewrite S. split; intros (n' & r & now' & Hin & H).
        -- exists n', r, now'. split; [now right | exact H].
        -- destruct Hin as [Hin|Hin]; [|now exists n', r, now'].
           injection Hin as -> -> ->. destruct H as [H _]. congruence.
    + exfalso. apply (Hok n e now). now left.
Qed.

(** X17. [loadMyDomains] is all or nothing: when the contracts cannot be
    built, the query fails, or the registry fails to answer for one of
    the events, the list of names on screen stays what it was; the names
    found before the failure are dropped. *)
Theorem failed_load_keeps_domains (contracts : bool)
    (events : Result (list Turn)) (myDomains : list DomainInfo) :
  contracts = false \/ (exists e, events = Throw e) \/
  (exists turns n e now,
     events = Ok turns /\ In (Registered n (Throw e) now) turns) ->
  loadMyDomains toLowerCase userAddress contracts events myDomains
  = myDomains.
Proof.
  unfold loadMyDomains.
  intros [->|[(e & ->)|(turns & n & e & now & -> & Hin)]].
  - reflexivity.
  - now destruct contracts.
  - destruct contracts; [|reflexivity]. cbn [negb].
    destruct (loop_throws turns n e now Hin []) as (e' & ->). reflexivity.
Qed.

(** X18. When the query and every answer of the registry succeed, the
    old list is replaced, and a name is listed exactly when it is the
    decoded name of an event whose record is owned by the user, case
    ignored, and had not expired when it was tested; there are at most
    as many names as events. *)
Theorem listed_domains (turns : list Turn) (myDomains : list DomainInfo) :
  (forall n e now, ~ In (Registered n (Throw e) now) turns) ->
  let domains :=
    loadMyDomains toLowerCase userAddress true (Ok turns) myDomains in
  (List.length domains <= List.length turns)%nat /\
  forall d, In d domains <->
    exists n record now,
      In (Registered n (Ok record) now) turns /\
      isActive toLowerCase userAddress record now = true /\
      d = domainOf n record.
Proof.
  intros Hok. unfold loadMyDomains. cbn [negb].
  destruct (loop_returns turns Hok []) as (listed & -> & L & S).
  cbn [app]. now split.
Qed.

End MoreHome.

Lemma failed_load_keeps_domains_witness :
  let record := MyDomains.mkRegistryRecord (js "0xab") 2000000000 in
  let turns :=
    [MyDomains.Registered (js "0x6162") (Ok record) 1700000000000;
     MyDomains.Registered (js "0x6364") (Throw InvalidArgument) 1700000000001] in
  MyDomains.loadMyDomains (fun s => s) (js "0xab") true (Ok turns) [] = [].
Proof.
  intros record turns.
  apply (failed_load_keeps_domains (fun s => s) (js "0xab") true (Ok turns) []).
  right. right.
  exists turns, (js "0x6364"), InvalidArgument, 1700000000001.
  split; [reflexivity|]. right. left. reflexivity.
Defined.

Lemma listed_domains_witness :
  let record := MyDomains.mkRegistryRecord (js "0xab") 2000000000 in
  let old := MyDomains.mkRegistryRecord (js "0xab") 1600000000 in
  let turns :=
    [MyDomains.Registered (js "0x6162") (Ok record) 1700000000000;
     MyDomains.BareLog;
     MyDomains.Registered (js "0x6364") (Ok old) 1700000000001] in
  (List.length (MyDomains.loadMyDomains (fun s => s) (js "0xab") true (Ok turns) [])
   <= 3)%nat.
Proof.
  intros record old turns.
  refine (proj1 (listed_domains (fun s => s) (js "0xab") turns [] _)).
  intros n e now H.
  repeat (destruct H as [H|H]; [discriminate|]). exact H.
Defined.

(** ** The messages of the home page *)

Section MoreMessages.
Import FailureMessages.

Lemma reasonOrMessage_shown (error : JsError) (errorMessage : jsstring) :
  falsy errorMessage = false ->
  falsy (reasonOrMessage error errorMessage) = false.
Proof.
  intros H. unfold reasonOrMessage.
  destruct (reason error) as [[|c r]|], (message error) as [[|c' m]|];
    cbn [falsy negb]; try exact H; reflexivity.
Qed.

(** X19. Whatever is thrown while registering or renewing a name, the
    message set by the handler is not empty, so the error box is shown:
    each branch gives a fixed sentence, [Error: ] and the reason, or a
    message that was tested to be non-empty. *)
Theorem failure_message_is_shown (error : JsError) :
  falsy (registrationError error) = false /\
  falsy (renewalError error) = false.
Proof.
  unfold registrationError, renewalError.
  split;
    repeat match goal with
           | |- context [if ?c then _ else _] => destruct c
           end;
    try reflexivity; now apply reasonOrMessage_shown.
Qed.

End MoreMessages.

(** ** The earlier version of the loop, continued *)

Section MoreLegacy.
Import RecordsPage.

(** X20. The loop of [App-old.tsx] keeps only events of the name asked
    for that carry data: every entry of its map has data other than ['']
    and ['0x'], and sits under the key made of the record type and the
    raw hexadecimal label of such an event. *)
Theorem legacy_rows_have_data (nameHex : jsstring) (events : list LogEntry)
    (k : jsstring) (r : RecordData) :
  In (k, r) (AppOld.reduce nameHex events) ->
  hasData (data r) = true /\
  exists args,
    In (EventLog args) events /\ args_name args = nameHex /\
    data r = args_data args /\
    k = AppOld.recordKey (args_recordType args) (args_label args).
Proof.
  unfold AppOld.reduce.
  assert (Inv : forall (es : list LogEntry) (m : JsMap.t RecordData),
    let P := fun (kr : jsstring * RecordData) =>
      hasData (data (snd kr)) = true /\
      exists args,
        In (EventLog args) events /\ args_name args = nameHex /\
        data (snd kr) = args_data args /\
        fst kr = AppOld.recordKey (args_recordType args) (args_label args) in
    incl es events -> (forall kr, In kr m -> P kr) ->
    forall kr, In kr (fold_left (AppOld.processEvent nameHex) es m) -> P kr).
  { induction es as [|e es IH]; intros m P Hincl Hm; cbn [fold_left];
      [exact Hm|].
    apply IH; [intros x Hx; apply Hincl; now right|].
    destruct e as [a|]; cbn [AppOld.processEvent]; [|exact Hm].
    destruct (str_eqb (args_name a) nameHex) eqn:En; cbn [negb]; [|exact Hm].
    destruct (falsy (args_data a)) eqn:Ef; cbn [orb]; [exact Hm|].
    destruct (str_eqb (args_data a) (js "0x")) eqn:Ex; [exact Hm|].
    intros [k' r'] H. apply in_set in H as [E|E]; [|now apply Hm].
    injection E as -> ->. unfold P. cbn [fst snd data]. split.
    - unfold hasData. now rewrite Ef, Ex.
    - exists a. split; [apply Hincl; now left|].
      split; [now apply str_eqb_eq|]. now split. }
  intros H.
  apply (Inv events JsMap.empty (incl_refl _) (fun kr (F : In kr []) => match F with end)
           (k, r) H).
Qed.

Lemma legacy_rows_have_data_witness :
  let name := KeyCodec.zeroKey in
  let a1 := mkArgs name KeyCodec.zeroKey (JsBigInt RecordTypes.TYPE_TXT) (js "0x61") in
  let a2 := mkArgs name KeyCodec.zeroKey (JsBigInt RecordTypes.TYPE_TXT) (js "0x") in
  let k := AppOld.recordKey (JsBigInt RecordTypes.TYPE_TXT) KeyCodec.zeroKey in
  let r := mkRecord RecordTypes.TYPE_TXT [] (js "0x61") (js "a") in
  AppOld.reduce name [EventLog a1; EventLog a2] = [(k, r)] /\
  hasData (data r) = true.
Proof.
  intros name a1 a2 k r. split; [reflexivity|].
  refine (proj1 (legacy_rows_have_data name [EventLog a1; EventLog a2] k r _)).
  left. reflexivity.
Defined.

End MoreLegacy.
